(** * py-com, [src/link]: the [.lib] archive reader and its byte cursor

    A shallow embedding of [parse.py] ([BufferStream]), [util.py]
    ([parse_big_endian]) and [ar.py] ([ArchiveReader]) together with the
    properties of the archive reader that the specification states.

    Conventions of the embedding:
    - a Python [bytes] object is a [list byte];
    - a Python [str] is the list of its code points ([list N]);
    - a Python [int] is a [Z];
    - a [dict] is a [gmap];
    - a method that mutates its object is a function from the object's state
      to an outcome and the new state; an exception leaves the mutations made
      before it in place, as in Python;
    - an exception is a value of [exn]; where the source formats a message,
      the value carries what the message interpolates;
    - a loop that need not end takes fuel, and [None] is a run that outlasts
      its fuel. *)

From Stdlib Require Import ZArith NArith List Strings.Byte String Lia Bool.
From stdpp Require Import gmap list.

Local Open Scope Z_scope.

(** ** Python values *)

#[global] Instance byte_eq_dec : EqDecision byte := Byte.byte_eq_dec.

(** The bytes of an ASCII literal, and its code points. *)
Definition bytes_of (s : string) : list byte := list_byte_of_string s.
Definition text (s : string) : list N := map Byte.to_N (list_byte_of_string s).

Definition py_len {A} (l : list A) : Z := Z.of_nat (length l).

(** Slice bounds as [PySlice_AdjustIndices] normalises them (step 1): a
    negative bound counts from the end, and the result is clipped to
    [0, len]. *)
Definition clamp_index (n i : Z) : Z :=
  if i <? 0 then Z.max (i + n) 0 else Z.min i n.

(** [l[lo:hi]] *)
Definition py_slice {A} (l : list A) (lo hi : Z) : list A :=
  let n := py_len l in
  let start := clamp_index n lo in
  let stop := clamp_index n hi in
  take (Z.to_nat (stop - start)) (drop (Z.to_nat start) l).

(** [l[i]]; [None] stands for [IndexError]. *)
Definition py_index {A} (l : list A) (i : Z) : option A :=
  let n := py_len l in
  let j := if i <? 0 then i + n else i in
  if (j <? 0) || (n <=? j) then None else l !! Z.to_nat j.

(** ** Exceptions *)

(** The three [BufferStreamIndexError] sites of [parse.py]. *)
Inductive stream_error : Type :=
| InsufficientData (length : Z)
| NoMoreToRead
| CStringEndNotFound.

(** The [ArchiveReadException] sites of [ar.py], with the values their
    messages interpolate. *)
Inductive archive_error : Type :=
| BadMagic (magic : list byte)
| FirstMemberName (name : list N)
| NoFilenameMember (filename : list N)
| BadFilenameFormat (filename : list N)
| DuplicateFilename (filename : list N)
| DuplicateSymbol.

Inductive exn : Type :=
| BufferStreamIndexError (e : stream_error)
| ArchiveReadException (e : archive_error)
| UnicodeDecodeError
| ValueError
| IndexError
| KeyError (key : Z)
| NameError (name : string).

Inductive result (A : Type) : Type :=
| Ok (a : A)
| Raise (e : exn).
Arguments Ok {A} a.
Arguments Raise {A} e.

Definition is_ok {A} (r : result A) : bool :=
  match r with Ok _ => true | Raise _ => false end.

(** A method of an object whose state is [S]. *)
Definition M (S A : Type) : Type := S -> result A * S.

Definition ret {S A} (a : A) : M S A := fun s => (Ok a, s).
Definition bind {S A B} (c : M S A) (k : A -> M S B) : M S B :=
  fun s => match c s with
           | (Ok a, s') => k a s'
           | (Raise e, s') => (Raise e, s')
           end.
Definition lift {S A} (r : result A) : M S A := fun s => (r, s).

Notation "'do' x <~ c ;; k" := (bind c (fun x => k))
  (at level 10, x name, c at level 99, k at level 200).
Notation "'run' c ;; k" := (bind c (fun _ => k))
  (at level 10, c at level 99, k at level 200).
Notation "'do' ' p <~ c ;; k" := (bind c (fun x => match x with p => k end))
  (at level 10, p pattern, c at level 99, k at level 200).

(** ** Builtins: [bytes.decode("utf-8")], [str.rstrip(" ")], [int(str)] *)

Definition is_cont (c : N) : bool := ((128 <=? c) && (c <=? 191))%N.

(** Strict UTF-8, as CPython's decoder: shortest form only, no surrogates,
    nothing above U+10FFFF. [None] stands for [UnicodeDecodeError]. *)
Fixpoint decode_utf8 (bs : list byte) : option (list N) :=
  match bs with
  | [] => Some []
  | b0 :: t0 =>
    let c0 := Byte.to_N b0 in
    if (c0 <? 128)%N then cons c0 <$> decode_utf8 t0
    else if ((194 <=? c0) && (c0 <=? 223))%N then
      match t0 with
      | b1 :: t1 =>
        let c1 := Byte.to_N b1 in
        if is_cont c1
        then cons ((c0 - 192) * 64 + (c1 - 128))%N <$> decode_utf8 t1
        else None
      | _ => None
      end
    else if ((224 <=? c0) && (c0 <=? 239))%N then
      match t0 with
      | b1 :: b2 :: t2 =>
        let c1 := Byte.to_N b1 in
        let c2 := Byte.to_N b2 in
        let lo := (if c0 =? 224 then 160 else 128)%N in
        let hi := (if c0 =? 237 then 159 else 191)%N in
        if ((lo <=? c1) && (c1 <=? hi))%N && is_cont c2
        then cons ((c0 - 224) * 4096 + (c1 - 128) * 64 + (c2 - 128))%N
               <$> decode_utf8 t2
        else None
      | _ => None
      end
    else if ((240 <=? c0) && (c0 <=? 244))%N then
      match t0 with
      | b1 :: b2 :: b3 :: t3 =>
        let c1 := Byte.to_N b1 in
        let c2 := Byte.to_N b2 in
        let c3 := Byte.to_N b3 in
        let lo := (if c0 =? 240 then 144 else 128)%N in
        let hi := (if c0 =? 244 then 143 else 191)%N in
        if ((lo <=? c1) && (c1 <=? hi))%N && is_cont c2 && is_cont c3
        then cons ((c0 - 240) * 262144 + (c1 - 128) * 4096
                   + (c2 - 128) * 64 + (c3 - 128))%N <$> decode_utf8 t3
        else None
      | _ => None
      end
    else None
  end.

Definition decode (bs : list byte) : result (list N) :=
  match decode_utf8 bs with
  | Some s => Ok s
  | None => Raise UnicodeDecodeError
  end.

(** [s.rstrip(" ")] *)
Fixpoint rstrip (s : list N) : list N :=
  match s with
  | [] => []
  | c :: t =>
    match rstrip t with
    | [] => if (c =? 32)%N then [] else [c]
    | t' => c :: t'
    end
  end.

(** [s.endswith("/")], [s.startswith("/")] *)
Definition endswith_slash (s : list N) : bool :=
  match last s with Some c => (c =? 47)%N | None => false end.
Definition startswith_slash (s : list N) : bool :=
  match s with c :: _ => (c =? 47)%N | [] => false end.

(** Non-ASCII code points that [int] reads as blanks, and the first code
    point of each run of ten decimal digits, from the Unicode 14 tables of
    CPython 3.11. *)
Definition unicode_spaces : list N :=
  [0x85; 0xa0; 0x1680; 0x2000; 0x2001; 0x2002; 0x2003; 0x2004; 0x2005;
   0x2006; 0x2007; 0x2008; 0x2009; 0x200a; 0x2028; 0x2029; 0x202f; 0x205f;
   0x3000]%N.

Definition unicode_digit_runs : list N :=
  [1632; 1776; 1984; 2406; 2534; 2662; 2790; 2918; 3046; 3174; 3302; 3430;
   3558; 3664; 3792; 3872; 4160; 4240; 6112; 6160; 6470; 6608; 6784; 6800;
   6992; 7088; 7232; 7248; 42528; 43216; 43264; 43472; 43504; 43600; 44016;
   65296; 66720; 68912; 69734; 69872; 69942; 70096; 70384; 70736; 70864;
   71248; 71360; 71472; 71904; 72016; 72784; 73040; 73120; 92768; 92864;
   93008; 120782; 120792; 120802; 120812; 120822; 123200; 123632; 125264;
   130032]%N.

(** [_PyUnicode_TransformDecimalAndSpaceToASCII], one code point: a code
    point below 127 is kept, a Unicode blank becomes a space, a Unicode
    decimal digit its ASCII digit, anything else [?] (which no integer
    literal contains). *)
Definition to_ascii (c : N) : N :=
  (if c <? 127 then c
   else if existsb (N.eqb c) unicode_spaces then 32
   else match find (fun r => (r <=? c) && (c <? r + 10)) unicode_digit_runs with
        | Some r => 48 + (c - r)
        | None => 63
        end)%N.

Definition is_space (c : N) : bool := ((9 <=? c) && (c <=? 13) || (c =? 32))%N.
Definition digit_of (c : N) : option Z :=
  if ((48 <=? c) && (c <=? 57))%N then Some (Z.of_N (c - 48)) else None.

Fixpoint skip_spaces (s : list N) : list N :=
  match s with
  | c :: t => if is_space c then skip_spaces t else s
  | [] => []
  end.

(** The digits after the first one: [digit] or [_ digit], repeated. Returns
    the value and what is left. *)
Fixpoint more_digits (acc : Z) (s : list N) : Z * list N :=
  match s with
  | c :: t =>
    match digit_of c with
    | Some d => more_digits (10 * acc + d) t
    | None =>
      if (c =? 95)%N then
        match t with
        | c' :: t' =>
          match digit_of c' with
          | Some d => more_digits (10 * acc + d) t'
          | None => (acc, s)
          end
        | [] => (acc, s)
        end
      else (acc, s)
    end
  | [] => (acc, [])
  end.

(** [int(s)] in base 10: blanks, an optional sign, digits that single
    underscores may separate, blanks. Every field this program converts is
    at most 16 characters long, far below the digit-count limit of [int]. *)
Definition py_int (s : list N) : result Z :=
  let s := skip_spaces (map to_ascii s) in
  let '(sign, s) :=
    match s with
    | c :: t =>
      if (c =? 43)%N then (1, t) else if (c =? 45)%N then (-1, t) else (1, s)
    | [] => (1, s)
    end in
  match s with
  | c :: t =>
    match digit_of c with
    | Some d =>
      let '(v, rest) := more_digits d t in
      if forallb is_space rest then Ok (sign * v) else Raise ValueError
    | None => Raise ValueError
    end
  | [] => Raise ValueError
  end.

(** ** [util.py] *)

Definition parse_big_endian (be_bytes : list byte) : Z :=
  fold_left (fun result byte => Z.lor (Z.shiftl result 8) (Z.of_N (Byte.to_N byte)))
            be_bytes 0.

(** ** [parse.py]: [BufferStream] *)

Record BufferStream : Type := mkBufferStream { data : list byte; cursor : Z }.

Definition set_cursor (c : Z) (self : BufferStream) : BufferStream :=
  {| data := data self; cursor := c |}.

Definition stream_length (self : BufferStream) : nat := length (data self).

Definition more_to_read (self : BufferStream) : bool :=
  cursor self <? py_len (data self).

Definition seek (position : option Z) : M BufferStream unit :=
  fun self =>
    match position with
    | Some p => (Ok tt, set_cursor p self)
    | None => (Ok tt, self)
    end.

Definition _new_cursor (length : option Z) (self : BufferStream) : Z :=
  match length with
  | None => py_len (data self)
  | Some n => cursor self + n
  end.

Definition read_bytes (length position : option Z) : M BufferStream (list byte) :=
  run seek position ;;
  fun self =>
    let new_cursor := _new_cursor length self in
    let result := py_slice (data self) (cursor self) new_cursor in
    match length with
    | Some n =>
      if negb (py_len result =? n)
      then (Raise (BufferStreamIndexError (InsufficientData n)), self)
      else (Ok result, set_cursor new_cursor self)
    | None => (Ok result, set_cursor new_cursor self)
    end.

Definition read_ascii (length position : option Z) : M BufferStream (list N) :=
  do bs <~ read_bytes length position ;;
  lift (decode bs).

Definition read_ascii_integer (length position : option Z) : M BufferStream Z :=
  do s <~ read_ascii length position ;;
  lift (py_int s).

Definition read_big_endian_dword (position : option Z) : M BufferStream Z :=
  do bs <~ read_bytes (Some 4) position ;;
  ret (parse_big_endian bs).

(** The scan of [read_cstring]: [data[string_end_offset]] is read before the
    bound is tested, so running off the end is the [IndexError] of the
    subscript; the test [string_end_offset > len(data)] that follows can then
    no longer hold. [None]: the loop is still running when [fuel] is used up. *)
Fixpoint scan_cstring (fuel : nat) (d : list byte) (string_end_offset : Z)
  : option (result Z) :=
  match py_index d string_end_offset with
  | None => Some (Raise IndexError)
  | Some c =>
    if decide (c = x00) then Some (Ok string_end_offset)
    else if py_len d <? string_end_offset
    then Some (Raise (BufferStreamIndexError CStringEndNotFound))
    else match fuel with
         | O => None
         | S fuel' => scan_cstring fuel' d (string_end_offset + 1)
         end
  end.

(** The scan starts at a cursor below [len(data)] and the subscript fails
    below [-len(data)], so it ends within [2 * len(data)] steps: the branch
    for a scan that is still running is never taken ([scan_cstring_total]
    below). *)
Definition read_cstring (position : option Z) : M BufferStream (list N) :=
  run seek position ;;
  fun self =>
    if negb (more_to_read self)
    then (Raise (BufferStreamIndexError NoMoreToRead), self)
    else
      match scan_cstring (2 * length (data self)) (data self) (cursor self) with
      | None => (Raise IndexError, self)
      | Some (Raise e) => (Raise e, self)
      | Some (Ok string_end_offset) =>
        let new_cursor := string_end_offset + 1 in
        match decode (py_slice (data self) (cursor self) string_end_offset) with
        | Raise e => (Raise e, self)
        | Ok result => (Ok result, set_cursor new_cursor self)
        end
      end.

Definition read_sub_stream (length position : option Z) : M BufferStream BufferStream :=
  run seek position ;;
  fun self =>
    let new_cursor := _new_cursor length self in
    let result := {| data := py_slice (data self) (cursor self) new_cursor;
                     cursor := 0 |} in
    (Ok result, set_cursor new_cursor self).

(** ** [ar.py]: [ArchiveReader] *)

Record Member : Type := mkMember {
  name : list N;
  date : Z;
  user_id : list N;
  group_id : list N;
  mode : Z;
  size : Z;
  content : BufferStream
}.

Definition set_content (c : BufferStream) (m : Member) : Member :=
  {| name := name m; date := date m; user_id := user_id m;
     group_id := group_id m; mode := mode m; size := size m; content := c |}.

Record ArchiveReader : Type := mkArchiveReader {
  members : gmap (list N) Member;
  symbol_member_map : gmap (list N) (list N)
}.

Definition reset (self : ArchiveReader) : ArchiveReader :=
  {| members := ∅; symbol_member_map := ∅ |}.

(** The four warnings of [ar.py], with the values their messages
    interpolate. *)
Inductive warning : Type :=
| EndOfHeader (endHeader : list byte)
| PaddingNotNewline (padding : list byte)
| SecondIndexMissing
| ExtraFilenameMember.

(** [print(message, file = sys.stderr)]: [ar.py] imports [namedtuple] and
    [parse] only, so evaluating the argument [sys.stderr] raises [NameError]
    before anything is printed. *)
Definition print_stderr (message : warning) : result unit :=
  Raise (NameError "sys").

Definition MAGIC : list byte := bytes_of "!<arch>" ++ [x0a].
Definition SLASH : list N := text "/".
Definition SLASH_SLASH : list N := text "//".

(** [filename in ("/", "//")] *)
Definition is_special (filename : list N) : bool :=
  bool_decide (filename = SLASH) || bool_decide (filename = SLASH_SLASH).

(** The branch of [_read_member] for a name field that is not ["/"] or
    ["//"]: the name in one of its two formats, which [self.members] must
    not hold yet. [read_cstring] moves the cursor of
    [filename_member.content], so the member is returned with it. *)
Definition resolve_filename (self_members : gmap (list N) Member)
    (filename_member : option Member) (filename : list N)
  : result (list N * option Member) :=
  match
    (if endswith_slash filename
     then Ok (py_slice filename 0 (-1), filename_member)
     else if startswith_slash filename then
       match py_int (py_slice filename 1 (py_len filename)) with
       | Raise e => Raise e
       | Ok filename_offset =>
         match filename_member with
         | None => Raise (ArchiveReadException (NoFilenameMember filename))
         | Some m =>
           match read_cstring (Some filename_offset) (content m) with
           | (Ok resolved, c) => Ok (resolved, Some (set_content c m))
           | (Raise e, _) => Raise e
           end
         end
       end
     else Raise (ArchiveReadException (BadFilenameFormat filename)))
  with
  | Raise e => Raise e
  | Ok (filename, filename_member) =>
    match self_members !! filename with
    | Some _ => Raise (ArchiveReadException (DuplicateFilename filename))
    | None => Ok (filename, filename_member)
    end
  end.

(** [_read_member(self, data_stream, filename_member)]: the state is
    [data_stream]; of [self] only [members] is read. The [assert] on the
    length of [padding] follows a [read_bytes(1)] that returned, and holds. *)
Definition _read_member (self_members : gmap (list N) Member)
    (filename_member : option Member)
  : M BufferStream (Member * option Member) :=
  do raw <~ read_ascii (Some 16) None ;;
  let filename := rstrip raw in
  do '(filename, filename_member) <~
    lift (if is_special filename then Ok (filename, filename_member)
          else resolve_filename self_members filename_member filename) ;;
  do date <~ read_ascii_integer (Some 12) None ;;
  do user_id <~ read_ascii (Some 6) None ;;
  let user_id := rstrip user_id in
  do group_id <~ read_ascii (Some 6) None ;;
  let group_id := rstrip group_id in
  do mode <~ read_ascii_integer (Some 8) None ;;
  do size <~ read_ascii_integer (Some 10) None ;;
  do endHeader <~ read_bytes (Some 2) None ;;
  run (if negb (bool_decide (py_index endHeader 0 = Some x60))
          || negb (bool_decide (py_index endHeader 1 = Some x0a))
       then lift (print_stderr (EndOfHeader endHeader))
       else ret tt) ;;
  run (fun data_stream =>
         if negb (cursor data_stream mod 2 =? 0) then
           (do padding <~ read_bytes (Some 1) None ;;
            if negb (bool_decide (py_index padding 0 = Some x0a))
            then lift (print_stderr (PaddingNotNewline padding))
            else ret tt) data_stream
         else ret tt data_stream) ;;
  do content <~ read_sub_stream (Some size) None ;;
  ret ({| name := filename; date := date; user_id := user_id;
          group_id := group_id; mode := mode; size := size;
          content := content |}, filename_member).

(** Step 1 of [load], the loop that catalogs the members. A member whose
    size field is negative moves the cursor backwards, so the loop need not
    end: [None] is a loop still running when [fuel] is used up. The result
    carries the offset table and [self.members] as the loop leaves it, also
    when it raises. *)
Fixpoint catalog (fuel : nat) (data_stream : BufferStream)
    (is_first_member_after_index : bool)
    (member_name_by_offset : gmap Z (list N))
    (filename_member : option Member)
    (self_members : gmap (list N) Member)
  : option (result (gmap Z (list N)) * gmap (list N) Member) :=
  if negb (more_to_read data_stream)
  then Some (Ok member_name_by_offset, self_members)
  else
    match fuel with
    | O => None
    | S fuel' =>
      let file_offset := cursor data_stream in
      match _read_member self_members filename_member data_stream with
      | (Raise e, _) => Some (Raise e, self_members)
      | (Ok (member, filename_member), data_stream) =>
        let classify :=
          if bool_decide (name member = SLASH_SLASH) then
            match filename_member with
            | None =>
              catalog fuel' data_stream false member_name_by_offset
                      (Some member) self_members
            | Some _ =>
              match print_stderr ExtraFilenameMember with
              | Raise e => Some (Raise e, self_members)
              | Ok _ =>
                catalog fuel' data_stream false member_name_by_offset
                        filename_member self_members
              end
            end
          else
            catalog fuel' data_stream false
                    (<[file_offset := name member]> member_name_by_offset)
                    filename_member
                    (<[name member := member]> self_members) in
        if is_first_member_after_index then
          if bool_decide (name member = SLASH)
          then catalog fuel' data_stream false member_name_by_offset
                       filename_member self_members
          else
            match print_stderr SecondIndexMissing with
            | Raise e => Some (Raise e, self_members)
            | Ok _ => classify
            end
        else classify
      end
    end.

(** Step 2 of [load], the loop over the offsets of the index. Each round
    reads four bytes of [member_offset_stream] or raises. *)
Fixpoint parse_index (fuel : nat) (member_offset_stream symbol_name_stream : BufferStream)
    (member_name_by_offset : gmap Z (list N))
    (self_symbol_member_map : gmap (list N) (list N))
  : option (result unit * gmap (list N) (list N)) :=
  if negb (more_to_read member_offset_stream)
  then Some (Ok tt, self_symbol_member_map)
  else
    match fuel with
    | O => None
    | S fuel' =>
      match read_big_endian_dword None member_offset_stream with
      | (Raise e, _) => Some (Raise e, self_symbol_member_map)
      | (Ok member_offset, member_offset_stream) =>
        match read_cstring None symbol_name_stream with
        | (Raise e, _) => Some (Raise e, self_symbol_member_map)
        | (Ok symbol_name, symbol_name_stream) =>
          match member_name_by_offset !! member_offset with
          | None => Some (Raise (KeyError member_offset), self_symbol_member_map)
          | Some member_name =>
            match self_symbol_member_map !! symbol_name with
            | Some _ =>
              Some (Raise (ArchiveReadException DuplicateSymbol),
                    self_symbol_member_map)
            | None =>
              parse_index fuel' member_offset_stream symbol_name_stream
                          member_name_by_offset
                          (<[symbol_name := member_name]> self_symbol_member_map)
            end
          end
        end
      end
    end.

(** The three reads of the index content that precede the loop. *)
Definition open_index (index_content : BufferStream)
  : result (BufferStream * BufferStream) :=
  fst ((do symbol_count <~ read_big_endian_dword None ;;
        do member_offset_stream <~ read_sub_stream (Some (4 * symbol_count)) None ;;
        do symbol_name_stream <~ read_sub_stream None None ;;
        ret (member_offset_stream, symbol_name_stream)) index_content).

(** [load(self, data)]. [fuel] bounds the rounds of the catalog loop; the
    index loop gets the length of its offset stream, which is enough
    ([load_returns] below). The result is the outcome and [self] as the
    call leaves it. *)
Definition load (fuel : nat) (self : ArchiveReader) (data : list byte)
  : option (result unit * ArchiveReader) :=
  let data_stream := {| data := data; cursor := 0 |} in
  match read_bytes (Some 8) None data_stream with
  | (Raise e, _) => Some (Raise e, self)
  | (Ok magic, data_stream) =>
    if negb (bool_decide (magic = MAGIC))
    then Some (Raise (ArchiveReadException (BadMagic magic)), self)
    else
      match _read_member (members self) None data_stream with
      | (Raise e, _) => Some (Raise e, self)
      | (Ok (index_member, _), data_stream) =>
        if negb (bool_decide (name index_member = SLASH))
        then Some (Raise (ArchiveReadException (FirstMemberName (name index_member))),
                   self)
        else
          match catalog fuel data_stream true ∅ None (members self) with
          | None => None
          | Some (Raise e, self_members) =>
            Some (Raise e, {| members := self_members;
                              symbol_member_map := symbol_member_map self |})
          | Some (Ok member_name_by_offset, self_members) =>
            let self := {| members := self_members;
                           symbol_member_map := symbol_member_map self |} in
            match open_index (content index_member) with
            | Raise e => Some (Raise e, self)
            | Ok (member_offset_stream, symbol_name_stream) =>
              match parse_index (stream_length member_offset_stream)
                      member_offset_stream symbol_name_stream
                      member_name_by_offset (symbol_member_map self) with
              | None => None
              | Some (r, self_symbol_member_map) =>
                Some (r, {| members := members self;
                            symbol_member_map := self_symbol_member_map |})
              end
            end
          end
      end
  end.

(** The reader as [__init__] leaves it before it loads anything. *)
Definition new_reader : ArchiveReader :=
  {| members := ∅; symbol_member_map := ∅ |}.

(** ** Notions that the properties use *)

(** What lies between the cursor and the end of the buffer, as the slice
    [data[cursor:len(data)]] gives it. *)
Definition remaining (self : BufferStream) : list byte :=
  py_slice (data self) (cursor self) (py_len (data self)).

(** The offsets that a stream of big-endian dwords holds. *)
Fixpoint dwords (bs : list byte) : list Z :=
  match bs with
  | b0 :: b1 :: b2 :: b3 :: rest => parse_big_endian [b0; b1; b2; b3] :: dwords rest
  | _ => []
  end.

(** Every name in the offset table is a key of [self.members]. *)
Definition table_in_members (tbl : gmap Z (list N)) (m : gmap (list N) Member) : Prop :=
  forall off n, tbl !! off = Some n -> is_Some (m !! n).

(** Every member name that [symbol_member_map] gives is a key of
    [members]. *)
Definition consistent (self : ArchiveReader) : Prop :=
  forall s n, symbol_member_map self !! s = Some n -> is_Some (members self !! n).

(** The readers that the methods of the class produce: a new one, one after
    [reset], one after a [load] that returned or raised. *)
Inductive reachable : ArchiveReader -> Prop :=
| reachable_new : reachable new_reader
| reachable_reset self : reachable self -> reachable (reset self)
| reachable_load fuel self input r self' :
    reachable self -> load fuel self input = Some (r, self') -> reachable self'.

Definition is_digit (c : N) : bool := ((48 <=? c) && (c <=? 57))%N.

(** The number that a string of ASCII digits writes. *)
Definition decimal_value (digits : list N) : Z :=
  fold_left (fun acc c => 10 * acc + Z.of_N (c - 48)) digits 0.

(** ** Example archives *)

Definition field (width : nat) (s : string) : list byte :=
  take width (bytes_of s ++ replicate width x20).

Definition header_with (terminator : list byte) (name size : string) : list byte :=
  field 16 name ++ field 12 "0" ++ field 6 "" ++ field 6 "" ++ field 8 "0"
  ++ field 10 size ++ terminator.

Definition header : string -> string -> list byte := header_with [x60; x0a].

Definition dword (n : Z) : list byte :=
  match Byte.of_N (Z.to_N n) with Some c => [x00; x00; x00; c] | None => [] end.

Definition plain_member (name : string) (size : Z) (content : string) : Member :=
  {| name := text name; date := 0; user_id := []; group_id := []; mode := 0;
     size := size; content := {| data := bytes_of content; cursor := 0 |} |}.

(** A well-formed archive with two members and two symbols. Offsets: magic
    0, first index header 8 and content 68 (22 bytes), second index header
    90, [a.obj] header 150 and content 210, [b.obj] header 212 and content
    272. *)
Definition two_members : list byte :=
  MAGIC
  ++ header "/" "22" ++ dword 2 ++ dword 150 ++ dword 212
     ++ bytes_of "sym1" ++ [x00] ++ bytes_of "sym2" ++ [x00]
  ++ header "/" "0"
  ++ header "a.obj/" "2" ++ bytes_of "AA"
  ++ header "b.obj/" "2" ++ bytes_of "BB".

Definition two_members_loaded : ArchiveReader :=
  {| members := <[text "a.obj" := plain_member "a.obj" 2 "AA"]>
                  (<[text "b.obj" := plain_member "b.obj" 2 "BB"]> ∅);
     symbol_member_map :=
       <[text "sym1" := text "a.obj"]> (<[text "sym2" := text "b.obj"]> ∅) |}.

(** The index names one symbol at offset 99, where no member starts: the
    only member, [a.obj], has its header at offset 140. *)
Definition stray_offset : list byte :=
  MAGIC
  ++ header "/" "12" ++ dword 1 ++ dword 99 ++ bytes_of "sym" ++ [x00]
  ++ header "/" "0"
  ++ header "a.obj/" "2" ++ bytes_of "AA".

(** The same index before two members: [a.obj] has its header at offset
    140 and [b.obj] at 202. *)
Definition stray_offset_two : list byte :=
  MAGIC
  ++ header "/" "12" ++ dword 1 ++ dword 99 ++ bytes_of "sym" ++ [x00]
  ++ header "/" "0"
  ++ header "a.obj/" "2" ++ bytes_of "AA"
  ++ header "b.obj/" "2" ++ bytes_of "BB".

(** The content of a filename lookup member with two names. *)
Definition long_names : list byte :=
  bytes_of "foo.obj" ++ [x00] ++ bytes_of "bar.obj" ++ [x00].

Definition lookup_member : Member :=
  {| name := text "//"; date := 0; user_id := []; group_id := []; mode := 0;
     size := 16; content := {| data := long_names; cursor := 0 |} |}.

(** A header whose name field is [/8], with its content. *)
Definition long_header : BufferStream :=
  {| data := header "/8" "2" ++ bytes_of "BB"; cursor := 0 |}.

(** Offsets: magic 0, first index 8 (content 68, four bytes), second index
    72, ["//"] header 132 and content 192 (16 bytes), header [/0] at 208 with
    content at 268, header [/8] at 270 with content at 330. *)
Definition long_names_archive : list byte :=
  MAGIC
  ++ header "/" "4" ++ dword 0
  ++ header "/" "0"
  ++ header "//" "16" ++ long_names
  ++ header "/0" "2" ++ bytes_of "AA"
  ++ header "/8" "2" ++ bytes_of "BB".

(** The same without the ["//"] member. *)
Definition no_lookup_archive : list byte :=
  MAGIC
  ++ header "/" "4" ++ dword 0
  ++ header "/" "0"
  ++ header "/0" "2" ++ bytes_of "AA".

(** A well-formed archive with a member of odd size: [a.obj] has one byte
    of content, at offset 192, then the pad byte at 193, a newline, so that
    the header of [b.obj] starts at the even offset 194; the content of
    [b.obj] is at 254. *)
Definition odd_member_archive : list byte :=
  MAGIC
  ++ header "/" "4" ++ dword 0
  ++ header "/" "0"
  ++ header "a.obj/" "1" ++ bytes_of "A" ++ [x0a]
  ++ header "b.obj/" "2" ++ bytes_of "BB".

(** The same with [a.obj] as the last member. *)
Definition odd_last_archive : list byte :=
  MAGIC
  ++ header "/" "4" ++ dword 0
  ++ header "/" "0"
  ++ header "a.obj/" "1" ++ bytes_of "A" ++ [x0a].

(** A header that starts at the odd offset 1, a newline at 61 and two bytes
    at 62. *)
Definition odd_offset_header : list byte :=
  bytes_of "X" ++ header "b.obj/" "2" ++ [x0a] ++ bytes_of "BB".

(** The terminator of the first header is [0x60 0x60]. *)
Definition bad_terminator_archive : list byte :=
  MAGIC ++ header_with [x60; x60] "/" "0".

(** The index has one byte of content, so the second header runs from 69 to
    129 and leaves the cursor odd; the byte read as padding there is [Z]. *)
Definition bad_padding_archive : list byte :=
  MAGIC ++ header "/" "1" ++ bytes_of "X" ++ header "/" "0" ++ bytes_of "Z".

(** No second index: [a.obj] follows the first index. *)
Definition no_second_index_archive : list byte :=
  MAGIC ++ header "/" "4" ++ dword 0 ++ header "a.obj/" "0".

(** Two ["//"] members. *)
Definition two_lookup_members_archive : list byte :=
  MAGIC ++ header "/" "4" ++ dword 0 ++ header "/" "0"
  ++ header "//" "0" ++ header "//" "0".

(** A third member named ["/"] whose size field is [-60]: reading it takes
    the cursor from 68 to 128 and back to 68. *)
Definition looping_archive : list byte :=
  MAGIC ++ header "/" "0" ++ header "/" "-60".

Definition looping_member : Member :=
  {| name := text "/"; date := 0; user_id := []; group_id := []; mode := 0;
     size := -60; content := {| data := []; cursor := 0 |} |}.

(** ** [util.py]: the value of a byte string *)

(** A byte as the integer that iterating over [bytes] gives. *)
Definition byte_value (c : byte) : Z := Z.of_N (Byte.to_N c).

(** [parse_little_endian(le_bytes)] *)
Definition parse_little_endian (le_bytes : list byte) : Z :=
  parse_big_endian (rev le_bytes).

(** ** The dictionaries across calls of [load] *)

(** Every value of [members] is filed under its own name. *)
Definition keyed_by_name (m : gmap (list N) Member) : Prop :=
  forall k v, m !! k = Some v -> name v = k.

(** A third member with the name field [/]: the loop files it under ["/"]. *)
Definition slash_member_archive (content : string) : list byte :=
  MAGIC
  ++ header "/" "4" ++ dword 0
  ++ header "/" "0"
  ++ header "/" "2" ++ bytes_of content.

(** A reader that holds one member and one symbol of an earlier archive. *)
Definition one_member_loaded : ArchiveReader :=
  {| members := <[text "c.obj" := plain_member "c.obj" 1 "C"]> ∅;
     symbol_member_map := <[text "sym3" := text "c.obj"]> ∅ |}.

(** * Properties *)

(** ** Slices and subscripts *)

Lemma py_len_nonneg {A} (l : list A) : 0 <= py_len l.
Proof. unfold py_len. lia. Qed.

Lemma py_slice_within {A} (l : list A) (lo hi : Z) :
  0 <= lo -> lo <= hi -> hi <= py_len l ->
  py_slice l lo hi = take (Z.to_nat (hi - lo)) (drop (Z.to_nat lo) l).
Proof.
  intros Hlo Hhi Hlen. unfold py_slice, clamp_index.
  destruct (Z.ltb_spec lo 0), (Z.ltb_spec hi 0); try lia.
  by rewrite !Z.min_l by lia.
Qed.

Lemma py_slice_to_end {A} (l : list A) (lo : Z) :
  0 <= lo -> py_slice l lo (py_len l) = drop (Z.to_nat lo) l.
Proof.
  intros Hlo. pose proof (py_len_nonneg l) as Hn.
  unfold py_slice, clamp_index.
  destruct (Z.ltb_spec lo 0), (Z.ltb_spec (py_len l) 0); try lia.
  rewrite (Z.min_l (py_len l)) by lia.
  destruct (Z.le_gt_cases lo (py_len l)) as [Hle|Hgt].
  - rewrite Z.min_l by lia. apply take_ge. rewrite length_drop.
    unfold py_len in *. lia.
  - rewrite Z.min_r by lia. rewrite Z.sub_diag. simpl.
    symmetry. apply drop_ge. unfold py_len in *. lia.
Qed.

Lemma py_slice_past_end {A} (l : list A) (lo : Z) :
  py_len l <= lo -> py_slice l lo (py_len l) = [].
Proof.
  intros Hlo. pose proof (py_len_nonneg l) as Hn.
  rewrite py_slice_to_end by lia. apply drop_ge. unfold py_len in *. lia.
Qed.

Lemma py_index_within {A} (l : list A) (i : Z) :
  0 <= i -> py_index l i = l !! Z.to_nat i.
Proof.
  intros Hi. unfold py_index. cbv zeta.
  destruct (Z.ltb_spec i 0); [lia|].
  destruct (Z.ltb_spec i 0); [lia|].
  destruct (Z.leb_spec (py_len l) i) as [Hge|Hlt]; simpl.
  - symmetry. apply lookup_ge_None. unfold py_len in *. lia.
  - reflexivity.
Qed.

Lemma py_index_in_range {A} (l : list A) (i : Z) (x : A) :
  py_index l i = Some x -> - py_len l <= i < py_len l.
Proof.
  unfold py_index. cbv zeta.
  destruct (Z.ltb_spec i 0).
  - destruct (Z.ltb_spec (i + py_len l) 0);
      destruct (Z.leb_spec (py_len l) (i + py_len l));
      simpl; intros; try discriminate; lia.
  - destruct (Z.ltb_spec i 0); destruct (Z.leb_spec (py_len l) i);
      simpl; intros; try discriminate; lia.
Qed.

(** ** [read_cstring]: the scan ends *)

Lemma scan_cstring_enough (d : list byte) (fuel : nat) (i : Z) :
  py_len d - i <= Z.of_nat fuel -> scan_cstring fuel d i <> None.
Proof.
  revert i. induction fuel as [|fuel IH]; intros i Hfuel; simpl.
  - destruct (py_index d i) as [c|] eqn:Hc; [|done].
    apply py_index_in_range in Hc. lia.
  - destruct (py_index d i) as [c|] eqn:Hc; [|done].
    destruct (decide (c = x00)); [done|].
    destruct (py_len d <? i); [done|].
    apply IH. lia.
Qed.

Lemma scan_cstring_total (d : list byte) (i : Z) :
  scan_cstring (2 * length d) d i <> None.
Proof.
  destruct (py_index d i) as [c|] eqn:Hc.
  - apply scan_cstring_enough. apply py_index_in_range in Hc.
    unfold py_len in *. lia.
  - destruct (2 * length d)%nat; simpl; by rewrite Hc.
Qed.

Lemma drop_cons_lookup {A} (l : list A) (n : nat) (x : A) (t : list A) :
  drop n l = x :: t -> l !! n = Some x /\ drop (S n) l = t.
Proof.
  intros H. split.
  - rewrite <- (Nat.add_0_r n), <- lookup_drop, H. reflexivity.
  - replace (S n) with (n + 1)%nat by lia.
    rewrite <- drop_drop, H. reflexivity.
Qed.

Lemma drop_nonempty_lt {A} (l : list A) (n : nat) (x : A) (t : list A) :
  drop n l = x :: t -> (n < length l)%nat.
Proof.
  intros H. apply drop_cons_lookup in H as [H _].
  by apply lookup_lt_Some in H.
Qed.

(** From a cursor that is not negative the scan stops at the first zero
    byte, or runs off the end when there is none. *)
Lemma scan_cstring_finds (d : list byte) (s rest : list byte) :
  x00 ∉ s ->
  forall (fuel : nat) (i : Z),
    0 <= i -> drop (Z.to_nat i) d = s ++ x00 :: rest ->
    py_len d - i <= Z.of_nat fuel ->
    scan_cstring fuel d i = Some (Ok (i + py_len s)).
Proof.
  induction s as [|c s IH]; intros Hs fuel i Hi Hdrop Hfuel.
  - simpl in Hdrop. apply drop_cons_lookup in Hdrop as [Hc _].
    rewrite <- py_index_within in Hc by done.
    unfold py_len; simpl. rewrite Z.add_0_r.
    destruct fuel; simpl; rewrite Hc; by destruct (decide (x00 = x00)).
  - simpl in Hdrop.
    pose proof (drop_nonempty_lt _ _ _ _ Hdrop) as Hlt.
    apply drop_cons_lookup in Hdrop as [Hc Hdrop].
    rewrite <- py_index_within in Hc by done.
    apply not_elem_of_cons in Hs as [Hc0 Hs].
    destruct fuel as [|fuel]; [unfold py_len in *; lia|].
    simpl. rewrite Hc. destruct (decide (c = x00)); [congruence|].
    destruct (Z.ltb_spec (py_len d) i); [unfold py_len in *; lia|].
    rewrite (IH Hs fuel (i + 1)).
    + unfold py_len. simpl. do 2 f_equal. lia.
    + lia.
    + by replace (Z.to_nat (i + 1)) with (S (Z.to_nat i)) by lia.
    + lia.
Qed.

Lemma scan_cstring_no_zero (d : list byte) (fuel : nat) (i : Z) :
  0 <= i -> x00 ∉ drop (Z.to_nat i) d ->
  py_len d - i <= Z.of_nat fuel ->
  scan_cstring fuel d i = Some (Raise IndexError).
Proof.
  revert i. induction fuel as [|fuel IH]; intros i Hi Hnz Hfuel.
  - simpl. rewrite py_index_within by done.
    rewrite (proj2 (lookup_ge_None d (Z.to_nat i))); [done|].
    unfold py_len in *. lia.
  - simpl. rewrite py_index_within by done.
    destruct (d !! Z.to_nat i) as [c|] eqn:Hc; [|done].
    assert (Hdrop : drop (Z.to_nat i) d = c :: drop (S (Z.to_nat i)) d).
    { by apply drop_S. }
    rewrite Hdrop in Hnz. apply not_elem_of_cons in Hnz as [Hc0 Hnz].
    destruct (decide (c = x00)); [congruence|].
    apply lookup_lt_Some in Hc.
    destruct (Z.ltb_spec (py_len d) i); [unfold py_len in *; lia|].
    apply IH; [lia| |lia].
    by replace (Z.to_nat (i + 1)) with (S (Z.to_nat i)) by lia.
Qed.

(** [read_cstring] after its optional [seek]. *)
Lemma read_cstring_after_seek (position : option Z) (self : BufferStream) :
  read_cstring position self = read_cstring None (snd (seek position self)).
Proof. unfold read_cstring, bind, seek. by destruct position. Qed.

Section ReadCString.
Variable self : BufferStream.
Hypothesis cursor_nonneg : 0 <= cursor self.

Lemma read_cstring_raises :
  x00 ∉ drop (Z.to_nat (cursor self)) (data self) ->
  exists e, read_cstring None self = (Raise e, self).
Proof.
  intros Hnz. unfold read_cstring, bind, seek, more_to_read.
  destruct (Z.ltb_spec (cursor self) (py_len (data self))); simpl; [|eauto].
  rewrite scan_cstring_no_zero; eauto. unfold py_len in *. lia.
Qed.

Lemma read_cstring_returns (s rest : list byte) :
  drop (Z.to_nat (cursor self)) (data self) = s ++ x00 :: rest ->
  x00 ∉ s ->
  read_cstring None self =
    match decode s with
    | Ok result => (Ok result, set_cursor (cursor self + py_len s + 1) self)
    | Raise e => (Raise e, self)
    end.
Proof.
  intros Hdrop Hs.
  assert (Hlen : length (drop (Z.to_nat (cursor self)) (data self))
                 = (length s + S (length rest))%nat).
  { rewrite Hdrop, length_app. reflexivity. }
  rewrite length_drop in Hlen.
  unfold read_cstring, bind, seek, more_to_read.
  destruct (Z.ltb_spec (cursor self) (py_len (data self)));
    [|unfold py_len in *; lia]. simpl.
  rewrite (scan_cstring_finds _ s rest Hs);
    [|done|done|unfold py_len in *; lia].
  rewrite py_slice_within; [|lia|unfold py_len; lia|unfold py_len in *; lia].
  replace (Z.to_nat (cursor self + py_len s - cursor self)) with (length s)
    by (unfold py_len; lia).
  rewrite Hdrop, take_app_length.
  by destruct (decode s).
Qed.

(** What a [read_cstring] that returned has read. *)
Lemma read_cstring_ok_inv (result : list N) (self' : BufferStream) :
  read_cstring None self = (Ok result, self') ->
  exists s rest,
    drop (Z.to_nat (cursor self)) (data self) = s ++ x00 :: rest
    /\ (x00 ∉ s)
    /\ decode_utf8 s = Some result
    /\ self' = set_cursor (cursor self + py_len s + 1) self.
Proof.
  intros Hread.
  destruct (decide (x00 ∈ drop (Z.to_nat (cursor self)) (data self))) as [Hin|Hnz].
  - apply list_elem_of_split_l in Hin as (s & rest & Hdrop & Hs).
    exists s, rest. rewrite (read_cstring_returns s rest Hdrop Hs) in Hread.
    unfold decode in Hread.
    destruct (decode_utf8 s) as [t|]; [|discriminate].
    by injection Hread as <- <-.
  - destruct (read_cstring_raises Hnz) as [e He]. congruence.
Qed.
End ReadCString.

(** [C8], the claim as stated fails. In [\xff\0z] a zero byte occurs after
    the cursor and [read_cstring] raises: the byte before the zero byte is
    not UTF-8, and the cursor stays where it was. A negative cursor is a
    subscript from the end, and the scan goes on from the last byte to the
    first: no zero byte lies in the last two bytes of [\0ab], yet from
    cursor -2 the call passes [a] and [b], stops at the zero byte at offset
    0 and returns the empty slice [data[-2:0]]; in [a\0b\0] it returns [b],
    the text before the last zero byte, and leaves the cursor at 0, the
    start of the buffer, not past that zero byte. *)
Lemma C8_read_cstring_fails :
  read_cstring None {| data := [xff; x00; x7a]; cursor := 0 |}
  = (Raise UnicodeDecodeError, {| data := [xff; x00; x7a]; cursor := 0 |})
  /\ read_cstring None {| data := x00 :: bytes_of "ab"; cursor := -2 |}
     = (Ok [], {| data := x00 :: bytes_of "ab"; cursor := 1 |})
  /\ read_cstring None
       {| data := bytes_of "a" ++ x00 :: bytes_of "b" ++ [x00]; cursor := -2 |}
     = (Ok (text "b"),
        {| data := bytes_of "a" ++ x00 :: bytes_of "b" ++ [x00]; cursor := 0 |}).
Proof. repeat split. Qed.

(** [C8], amended. From a cursor that is not negative, [read_cstring]
    (after its optional [seek]) raises when no zero byte lies between the
    cursor and the end of the buffer, leaving the cursor where it was; when
    the bytes from the cursor are [s], a zero byte and [rest], with no zero
    byte in [s], and [s] is UTF-8, it returns [s] decoded and puts the
    cursor just past that zero byte; when [s] is not UTF-8 it raises the
    error of [bytes.decode] and leaves the cursor where it was. *)
Theorem C8_read_cstring (self : BufferStream) (position : option Z) :
  let start := snd (seek position self) in
  0 <= cursor start ->
  (x00 ∉ drop (Z.to_nat (cursor start)) (data start) ->
   exists e, read_cstring position self = (Raise e, start))
  /\
  (forall s rest : list byte,
     drop (Z.to_nat (cursor start)) (data start) = s ++ x00 :: rest ->
     x00 ∉ s ->
     read_cstring position self =
       match decode s with
       | Ok result => (Ok result, set_cursor (cursor start + py_len s + 1) start)
       | Raise e => (Raise e, start)
       end).
Proof.
  intros start Hc. rewrite read_cstring_after_seek. fold start. split.
  - by apply read_cstring_raises.
  - by apply read_cstring_returns.
Qed.

Ltac by_decide := apply (bool_decide_unpack _); vm_compute; exact I.

(** [C8] at [long_names] from offset 8, and at [abc] from offset 1. *)
Lemma C8_read_cstring_witness :
  read_cstring (Some 8) {| data := long_names; cursor := 0 |}
    = (Ok (text "bar.obj"), {| data := long_names; cursor := 16 |})
  /\ exists e, read_cstring None {| data := bytes_of "abc"; cursor := 1 |}
               = (Raise e, {| data := bytes_of "abc"; cursor := 1 |}).
Proof.
  split.
  - apply (proj2 (C8_read_cstring {| data := long_names; cursor := 0 |} (Some 8)
                    ltac:(simpl; lia))
             (bytes_of "bar.obj") [] eq_refl ltac:(by_decide)).
  - apply (proj1 (C8_read_cstring {| data := bytes_of "abc"; cursor := 1 |} None
                    ltac:(simpl; lia))
             ltac:(by_decide)).
Defined.

(** ** [read_bytes] and [read_ascii] without a length *)

(** [C10], the claim as stated fails: [read_ascii()] raises on a buffer whose
    remaining bytes are not UTF-8 (the cursor has moved to the end by
    then). *)
Lemma C10_read_ascii_raises :
  read_ascii None None {| data := [xff]; cursor := 0 |}
  = (Raise UnicodeDecodeError, {| data := [xff]; cursor := 1 |}).
Proof. reflexivity. Qed.

(** [C10], amended. With the length omitted, from every state and after the
    optional [seek]: [read_bytes] never fails, returns the bytes from the
    cursor to the end of the buffer and leaves the cursor at the end;
    [read_ascii] reads the same bytes and leaves the cursor at the end too,
    returns their text when they are valid UTF-8 and raises
    [UnicodeDecodeError] when they are not. The bytes read are
    [data[cursor:]]: all that follows a cursor that is not negative, nothing
    when the cursor is at or past the end. *)
Theorem C10_read_rest (self : BufferStream) (position : option Z) :
  let start := snd (seek position self) in
  let finish := set_cursor (py_len (data self)) self in
  read_bytes None position self = (Ok (remaining start), finish)
  /\ read_ascii None position self =
       (match decode_utf8 (remaining start) with
        | Some text => Ok text
        | None => Raise UnicodeDecodeError
        end, finish)
  /\ (0 <= cursor start ->
      remaining start = drop (Z.to_nat (cursor start)) (data self))
  /\ (py_len (data self) <= cursor start -> remaining start = []).
Proof.
  intros start finish.
  assert (Hb : read_bytes None position self = (Ok (remaining start), finish)).
  { unfold read_bytes, bind, seek, start, finish. by destruct position. }
  assert (Hd : data start = data self).
  { unfold start, seek. by destruct position. }
  repeat split.
  - exact Hb.
  - unfold read_ascii, bind. rewrite Hb. unfold lift, decode.
    by destruct (decode_utf8 (remaining start)).
  - intros Hc. unfold remaining. rewrite Hd. by apply py_slice_to_end.
  - intros Hc. unfold remaining. rewrite Hd. by apply py_slice_past_end.
Qed.

(** [C10] at [abcdef] from the cursors 4 and 9. *)
Lemma C10_read_rest_witness :
  remaining {| data := bytes_of "abcdef"; cursor := 4 |} = bytes_of "ef"
  /\ remaining {| data := bytes_of "abcdef"; cursor := 9 |} = [].
Proof.
  pose proof (C10_read_rest {| data := bytes_of "abcdef"; cursor := 0 |} (Some 4))
    as (_ & _ & H & _).
  pose proof (C10_read_rest {| data := bytes_of "abcdef"; cursor := 0 |} (Some 9))
    as (_ & _ & _ & H').
  split.
  - apply H. simpl. lia.
  - apply H'. vm_compute. discriminate.
Defined.

(** ** [read_sub_stream] *)

(** [read_sub_stream] has no failing path. *)
Lemma read_sub_stream_ok (length position : option Z) (self : BufferStream) :
  exists view self', read_sub_stream length position self = (Ok view, self').
Proof.
  unfold read_sub_stream, bind, seek. destruct position; eauto.
Qed.

(** [C4], the code at the failing input: with three bytes left,
    [read_sub_stream(5)] returns a view of those three bytes and moves the
    cursor to 5, past the end, where [read_bytes(5)] raises
    [BufferStreamIndexError]; [read_sub_stream] has no failing path at
    all. *)
Theorem C4_read_sub_stream_short :
  let self := {| data := bytes_of "abc"; cursor := 0 |} in
  read_sub_stream (Some 5) None self
    = (Ok {| data := bytes_of "abc"; cursor := 0 |},
       {| data := bytes_of "abc"; cursor := 5 |})
  /\ read_bytes (Some 5) None self
     = (Raise (BufferStreamIndexError (InsufficientData 5)), self)
  /\ (forall length position self0,
        exists view self', read_sub_stream length position self0 = (Ok view, self')).
Proof. repeat split. apply read_sub_stream_ok. Qed.

(** ** [_read_member] and [self.members] *)

Lemma bind_ok {S A B} (c : M S A) (k : A -> M S B) (s s' : S) (y : B) :
  bind c k s = (Ok y, s') ->
  exists a s1, c s = (Ok a, s1) /\ k a s1 = (Ok y, s').
Proof.
  unfold bind. destruct (c s) as [[a|e] s1]; [eauto|discriminate].
Qed.

Ltac peel H :=
  let a := fresh "a" in
  let s := fresh "s" in
  let E := fresh "E" in
  apply bind_ok in H as (a & s & E & H); cbv beta iota zeta in H.

(** The name of the member that [_read_member] returns is the one the name
    field resolves to. *)
Lemma read_member_inv m fm ds member fm' ds' :
  _read_member m fm ds = (Ok (member, fm'), ds') ->
  exists raw ds1,
    read_ascii (Some 16) None ds = (Ok raw, ds1)
    /\ (if is_special (rstrip raw) then Ok (rstrip raw, fm)
        else resolve_filename m fm (rstrip raw)) = Ok (name member, fm').
Proof.
  intros H. unfold _read_member in H.
  apply bind_ok in H as (raw & ds1 & Hraw & H). cbv beta iota zeta in H.
  apply bind_ok in H as ([fn fm2] & ds2 & Hres & H). cbv beta iota zeta in H.
  exists raw, ds1. split; [done|].
  unfold lift in Hres. injection Hres as Hres _. rewrite Hres.
  do 8 peel H.
  unfold ret in H. injection H as <- <- _. reflexivity.
Qed.

(** [self.members] enters [_read_member] through [resolve_filename] only. *)
Lemma read_member_resolve m1 m2 fm ds :
  (forall raw ds1,
     read_ascii (Some 16) None ds = (Ok raw, ds1) ->
     is_special (rstrip raw) = false ->
     resolve_filename m1 fm (rstrip raw) = resolve_filename m2 fm (rstrip raw)) ->
  _read_member m1 fm ds = _read_member m2 fm ds.
Proof.
  intros H. unfold _read_member, bind.
  destruct (read_ascii (Some 16) None ds) as [[raw|e] ds1] eqn:Hraw; [|done].
  destruct (is_special (rstrip raw)) eqn:Hsp; [done|].
  by rewrite (H raw ds1).
Qed.

Lemma read_member_raise m fm ds raw ds1 e :
  read_ascii (Some 16) None ds = (Ok raw, ds1) ->
  is_special (rstrip raw) = false ->
  resolve_filename m fm (rstrip raw) = Raise e ->
  _read_member m fm ds = (Raise e, ds1).
Proof.
  intros Hraw Hsp Hres. unfold _read_member, bind.
  rewrite Hraw. cbv beta iota zeta. unfold lift. by rewrite Hsp, Hres.
Qed.

(** What changes when [_read_member] runs against another [self.members]:
    nothing, unless the name went through the duplicate test and the other
    dictionary holds it, when the call raises. *)
Lemma read_member_members mA mB fm ds member fm' ds' :
  _read_member mA fm ds = (Ok (member, fm'), ds') ->
  (_read_member mB fm ds = (Ok (member, fm'), ds')
   /\ (is_special (name member) = true \/ mB !! name member = None))
  \/ (exists ds1,
        _read_member mB fm ds
        = (Raise (ArchiveReadException (DuplicateFilename (name member))), ds1)).
Proof.
  intros HA. destruct (read_member_inv _ _ _ _ _ _ HA) as (raw & ds1 & Hraw & Hres).
  destruct (is_special (rstrip raw)) eqn:Hsp.
  - injection Hres as Hn _. left. split.
    + rewrite <- HA. apply read_member_resolve.
      intros raw' ds1' Hraw'. rewrite Hraw in Hraw'. injection Hraw' as <- _.
      congruence.
    + left. by rewrite <- Hn.
  - unfold resolve_filename in Hres.
    destruct (mB !! name member) eqn:HB.
    + right. exists ds1. apply (read_member_raise _ _ _ raw); [done..|].
      unfold resolve_filename.
      destruct (if endswith_slash (rstrip raw) then _ else _)
        as [[fn fm2]|e]; [|discriminate].
      destruct (mA !! fn); [discriminate|].
      injection Hres as -> ->. by rewrite HB.
    + left. split; [|by right].
      rewrite <- HA. apply read_member_resolve.
      intros raw' ds1' Hraw'. rewrite Hraw in Hraw'. injection Hraw' as <- _.
      intros _. unfold resolve_filename.
      destruct (if endswith_slash (rstrip raw) then _ else _)
        as [[fn fm2]|e]; [|done].
      destruct (mA !! fn); [discriminate|].
      injection Hres as -> ->. by rewrite HB.
Qed.

(** ** The catalog loop *)

(** One round of [catalog], by cases on what the loop reads and on where the
    member goes. *)
Ltac catalog_round H Hrm :=
  simpl in H;
  destruct (more_to_read _); simpl in H;
  [ destruct (_read_member _ _ _) as [[[? ?]|?] ?] eqn:Hrm;
    [ unfold print_stderr in H;
      repeat match type of H with
             | context [if ?c then _ else _] => destruct c eqn:?
             | context [match ?o with Some _ => _ | None => _ end] =>
               is_var o; destruct o
             end
    | ]
  | ].

(** The loop only adds to [self.members]. *)
Lemma catalog_members_grow fuel :
  forall ds first tbl fm m r m',
    catalog fuel ds first tbl fm m = Some (r, m') ->
    forall k, is_Some (m !! k) -> is_Some (m' !! k).
Proof.
  induction fuel as [|fuel IH]; intros ds first tbl fm m r m' H k Hk.
  - simpl in H. destruct (more_to_read ds); simpl in H; [discriminate|].
    by injection H as _ <-.
  - catalog_round H Hrm; try (injection H as _ <-; done);
      try (by eapply IH; [exact H|]).
    eapply IH; [exact H|]. rewrite lookup_insert.
    destruct (decide (_ = k)); [by eexists|done].
Qed.

Lemma catalog_table_in_members fuel :
  forall ds first tbl fm m tbl' m',
    table_in_members tbl m ->
    catalog fuel ds first tbl fm m = Some (Ok tbl', m') ->
    table_in_members tbl' m'.
Proof.
  induction fuel as [|fuel IH]; intros ds first tbl fm m tbl' m' Hinv H.
  - simpl in H. destruct (more_to_read ds); simpl in H; [discriminate|].
    by injection H as <- <-.
  - catalog_round H Hrm; try discriminate;
      try (by injection H as <- <-);
      try (by eapply IH; [|exact H]).
    eapply IH; [|exact H].
    intros off n. rewrite !lookup_insert.
    destruct (decide (_ = off)).
    + intros [= <-]. destruct (decide (_ = _)); [by eexists|done].
    + intros Hoff. destruct (decide (_ = n)); [by eexists|by eapply Hinv].
Qed.

(** More fuel does not change a result. *)
Lemma catalog_fuel_mono fuel :
  forall ds first tbl fm m x,
    catalog fuel ds first tbl fm m = Some x ->
    catalog (S fuel) ds first tbl fm m = Some x.
Proof.
  induction fuel as [|fuel IH]; intros ds first tbl fm m x H.
  - simpl in H |- *. destruct (more_to_read ds); simpl in *; [discriminate|done].
  - remember (S fuel) as fuel1. simpl. subst fuel1.
    catalog_round H Hrm; try done; by apply IH.
Qed.

Lemma catalog_fuel_le fuel fuel' :
  (fuel <= fuel')%nat ->
  forall ds first tbl fm m x,
    catalog fuel ds first tbl fm m = Some x ->
    catalog fuel' ds first tbl fm m = Some x.
Proof.
  induction 1 as [|fuel' _ IH]; intros ds first tbl fm m x H; [done|].
  by apply catalog_fuel_mono, IH.
Qed.

(** The rounds of the loop that do not raise. *)
Lemma catalog_out_of_fuel ds first tbl fm m :
  more_to_read ds = true -> catalog 0 ds first tbl fm m = None.
Proof. intros Hmore. simpl. by rewrite Hmore. Qed.

Lemma catalog_skip_second_index fuel ds tbl fm m member fm' ds' :
  more_to_read ds = true ->
  _read_member m fm ds = (Ok (member, fm'), ds') ->
  name member = SLASH ->
  catalog (S fuel) ds true tbl fm m = catalog fuel ds' false tbl fm' m.
Proof.
  intros Hmore Hrm Hname. simpl. rewrite Hmore, Hrm. simpl.
  by rewrite bool_decide_eq_true_2.
Qed.

Lemma catalog_file_member fuel ds tbl fm m member fm' ds' :
  more_to_read ds = true ->
  _read_member m fm ds = (Ok (member, fm'), ds') ->
  name member <> SLASH_SLASH ->
  catalog (S fuel) ds false tbl fm m
  = catalog fuel ds' false (<[cursor ds := name member]> tbl) fm'
            (<[name member := member]> m).
Proof.
  intros Hmore Hrm Hname. simpl. rewrite Hmore, Hrm. simpl.
  by rewrite bool_decide_eq_false_2.
Qed.

(** A round that leaves the stream, the offset table and [self.members] as
    it found them is repeated for ever. *)
Lemma catalog_fixed_point ds tbl fm m member :
  more_to_read ds = true ->
  _read_member m fm ds = (Ok (member, fm), ds) ->
  name member <> SLASH_SLASH ->
  tbl !! cursor ds = Some (name member) ->
  m !! name member = Some member ->
  forall fuel, catalog fuel ds false tbl fm m = None.
Proof.
  intros Hmore Hrm Hname Htbl Hm fuel.
  induction fuel as [|fuel IH]; [by apply catalog_out_of_fuel|].
  rewrite (catalog_file_member _ _ _ _ _ _ _ _ Hmore Hrm Hname).
  by rewrite !insert_id.
Qed.

(** ** The index loop *)

Lemma read_bytes_ok (n : Z) (self self' : BufferStream) (bs : list byte) :
  read_bytes (Some n) None self = (Ok bs, self') ->
  self' = set_cursor (cursor self + n) self
  /\ bs = py_slice (data self) (cursor self) (cursor self + n)
  /\ py_len bs = n.
Proof.
  unfold read_bytes, bind, seek, _new_cursor. simpl.
  destruct (Z.eqb_spec (py_len (py_slice (data self) (cursor self) (cursor self + n))) n);
    simpl; [|discriminate].
  by intros [= <- <-].
Qed.

Lemma read_big_endian_dword_ok (self self' : BufferStream) (v : Z) :
  read_big_endian_dword None self = (Ok v, self') ->
  self' = set_cursor (cursor self + 4) self
  /\ v = parse_big_endian (py_slice (data self) (cursor self) (cursor self + 4))
  /\ py_len (py_slice (data self) (cursor self) (cursor self + 4)) = 4.
Proof.
  unfold read_big_endian_dword. intros H.
  apply bind_ok in H as (bs & s1 & Hbs & H).
  apply read_bytes_ok in Hbs as (-> & -> & Hlen).
  unfold ret in H. by injection H as <- <-.
Qed.

(** Each round moves the cursor of the offset stream four bytes on, so the
    loop ends within the length of that stream. *)
Lemma parse_index_enough fuel :
  forall offs names tbl smap,
    py_len (data offs) - cursor offs <= Z.of_nat fuel ->
    parse_index fuel offs names tbl smap <> None.
Proof.
  induction fuel as [|fuel IH]; intros offs names tbl smap Hfuel; simpl.
  - unfold more_to_read.
    destruct (Z.ltb_spec (cursor offs) (py_len (data offs))); simpl; [lia|done].
  - destruct (more_to_read offs); simpl; [|done].
    destruct (read_big_endian_dword None offs) as [[off|e] offs'] eqn:Hoff; [|done].
    destruct (read_cstring None names) as [[sym|e] names']; [|done].
    destruct (tbl !! off); [|done].
    destruct (smap !! sym); [done|].
    apply IH. apply read_big_endian_dword_ok in Hoff as (-> & _ & _).
    simpl. lia.
Qed.

(** The loop writes names of the offset table only, whatever its outcome. *)
Lemma parse_index_values (P : list N -> Prop) fuel :
  forall offs names tbl smap r smap',
    (forall off n, tbl !! off = Some n -> P n) ->
    (forall s n, smap !! s = Some n -> P n) ->
    parse_index fuel offs names tbl smap = Some (r, smap') ->
    forall s n, smap' !! s = Some n -> P n.
Proof.
  induction fuel as [|fuel IH]; intros offs names tbl smap r smap' Htbl Hsmap H;
    simpl in H.
  - destruct (more_to_read offs); simpl in H; [discriminate|].
    by injection H as _ <-.
  - destruct (more_to_read offs); simpl in H; [|by injection H as _ <-].
    destruct (read_big_endian_dword None offs) as [[off|e] offs'];
      [|by injection H as _ <-].
    destruct (read_cstring None names) as [[sym|e] names'];
      [|by injection H as _ <-].
    destruct (tbl !! off) as [member_name|] eqn:Hoff; [|by injection H as _ <-].
    destruct (smap !! sym); [by injection H as _ <-|].
    eapply IH; [exact Htbl| |exact H].
    intros s n. rewrite lookup_insert.
    destruct (decide (sym = s)); [|by apply Hsmap].
    intros [= <-]. by eapply Htbl.
Qed.

Lemma dwords_drop (d : list byte) (c : nat) :
  py_len (py_slice d (Z.of_nat c) (Z.of_nat c + 4)) = 4 ->
  dwords (drop c d)
  = parse_big_endian (py_slice d (Z.of_nat c) (Z.of_nat c + 4)) :: dwords (drop (c + 4) d).
Proof.
  intros Hlen.
  assert (Hin : Z.of_nat c + 4 <= py_len d).
  { destruct (Z.le_gt_cases (Z.of_nat c + 4) (py_len d)) as [|Hgt]; [done|].
    exfalso. revert Hlen. unfold py_slice, clamp_index, py_len in *.
    destruct (Z.ltb_spec (Z.of_nat c) 0); [lia|].
    destruct (Z.ltb_spec (Z.of_nat c + 4) 0); [lia|].
    rewrite length_take, length_drop. lia. }
  rewrite py_slice_within in * by lia.
  replace (Z.to_nat (Z.of_nat c + 4 - Z.of_nat c)) with 4%nat in * by lia.
  rewrite Nat2Z.id in *.
  rewrite <- (drop_drop d 4 c).
  unfold py_len in Hlen.
  destruct (drop c d) as [|b0 [|b1 [|b2 [|b3 rest]]]]; simpl in Hlen; try lia.
  reflexivity.
Qed.

(** The loop does not return before it has found every offset in the
    table. *)
Lemma parse_index_ok_offsets fuel :
  forall offs names tbl smap smap',
    0 <= cursor offs ->
    parse_index fuel offs names tbl smap = Some (Ok tt, smap') ->
    Forall (fun off => is_Some (tbl !! off))
           (dwords (drop (Z.to_nat (cursor offs)) (data offs))).
Proof.
  induction fuel as [|fuel IH]; intros offs names tbl smap smap' Hc H;
    simpl in H; unfold more_to_read in H.
  - destruct (Z.ltb_spec (cursor offs) (py_len (data offs))); simpl in H;
      [discriminate|].
    rewrite drop_ge by (unfold py_len in *; lia). constructor.
  - destruct (Z.ltb_spec (cursor offs) (py_len (data offs))); simpl in H.
    2:{ rewrite drop_ge by (unfold py_len in *; lia). constructor. }
    destruct (read_big_endian_dword None offs) as [[off|e] offs'] eqn:Hoff;
      [|discriminate].
    destruct (read_cstring None names) as [[sym|e] names']; [|discriminate].
    destruct (tbl !! off) as [member_name|] eqn:Htbl; [|discriminate].
    destruct (smap !! sym); [discriminate|].
    apply read_big_endian_dword_ok in Hoff as (-> & -> & Hlen).
    apply IH in H; [|simpl; lia]. simpl in H.
    rewrite <- (Z2Nat.id (cursor offs)) in Hlen, Htbl by done.
    rewrite (dwords_drop _ _ Hlen). constructor; [by rewrite Htbl|].
    by replace (Z.to_nat (cursor offs) + 4)%nat with (Z.to_nat (cursor offs + 4))
      by lia.
Qed.

(** ** [load] *)

Lemma open_index_fresh (index_content offs names : BufferStream) :
  open_index index_content = Ok (offs, names) -> cursor offs = 0.
Proof.
  unfold open_index. intros H.
  destruct (bind _ _ index_content) as [r s] eqn:Hrun. simpl in H. subst r.
  apply bind_ok in Hrun as (n & s1 & _ & Hrun).
  apply bind_ok in Hrun as (offs' & s2 & Hoffs & Hrun).
  apply bind_ok in Hrun as (names' & s3 & _ & Hrun).
  unfold ret in Hrun. injection Hrun as -> _ _.
  unfold read_sub_stream, bind, seek in Hoffs. by injection Hoffs as <- _.
Qed.

(** The stages of a [load] that went as far as the index loop. *)
Lemma load_stages fuel self data r self' :
  load fuel self data = Some (r, self') ->
  (self' = self /\ is_ok r = false)
  \/ exists index_member fm0 ds1 x m1,
       _read_member (members self) None {| data := data; cursor := 8 |}
         = (Ok (index_member, fm0), ds1)
       /\ catalog fuel ds1 true ∅ None (members self) = Some (x, m1)
       /\ members self' = m1
       /\ ((is_ok x = false /\ is_ok r = false
            /\ symbol_member_map self' = symbol_member_map self)
           \/ exists tbl, x = Ok tbl
              /\ ((exists e, open_index (content index_member) = Raise e
                             /\ r = Raise e
                             /\ symbol_member_map self' = symbol_member_map self)
                  \/ exists offs names,
                       open_index (content index_member) = Ok (offs, names)
                       /\ parse_index (stream_length offs) offs names tbl
                            (symbol_member_map self)
                          = Some (r, symbol_member_map self'))).
Proof.
  unfold load. intros H.
  destruct (read_bytes (Some 8) None _) as [[magic|e] ds0] eqn:Hmagic.
  2:{ left. by injection H as <- <-. }
  apply read_bytes_ok in Hmagic as (-> & _ & _).
  destruct (negb (bool_decide (magic = MAGIC))).
  { left. by injection H as <- <-. }
  change (set_cursor (cursor {| data := data; cursor := 0 |} + 8)
            {| data := data; cursor := 0 |})
    with {| data := data; cursor := 8 |} in H.
  destruct (_read_member (members self) None _)
    as [[[index_member fm0]|e] ds1] eqn:Hindex.
  2:{ left. by injection H as <- <-. }
  destruct (negb (bool_decide (name index_member = SLASH))).
  { left. by injection H as <- <-. }
  destruct (catalog fuel ds1 true ∅ None (members self)) as [[x m1]|] eqn:Hcat;
    [|discriminate].
  right. exists index_member, fm0, ds1, x, m1. split; [done|]. split; [done|].
  destruct x as [tbl|e].
  2:{ injection H as <- <-. simpl. split; [done|]. left. done. }
  simpl in H.
  destruct (open_index (content index_member)) as [[offs names]|e] eqn:Hopen.
  2:{ injection H as <- <-. simpl. split; [done|]. right. exists tbl.
      split; [done|]. left. eauto. }
  destruct (parse_index _ offs names tbl _) as [[r' smap']|] eqn:Hparse;
    [|discriminate].
  injection H as <- <-. simpl. split; [done|]. right. exists tbl.
  split; [done|]. right. eauto.
Qed.

Lemma new_reader_consistent : consistent new_reader.
Proof. intros s n H. unfold new_reader in H. simpl in H. by rewrite lookup_empty in H. Qed.

(** [load] keeps the two dictionaries consistent, however it ends. *)
Lemma load_consistent fuel self data r self' :
  consistent self -> load fuel self data = Some (r, self') -> consistent self'.
Proof.
  intros Hinv H.
  apply load_stages in H
    as [[-> _]|(index_member & fm0 & ds1 & x & m1 & _ & Hcat & Hm & Hrest)];
    [done|].
  assert (Hgrow : forall n, is_Some (members self !! n) -> is_Some (members self' !! n)).
  { intros n. rewrite Hm. by eapply catalog_members_grow. }
  destruct Hrest as [(_ & _ & Hs)|(tbl & -> & [(e & _ & _ & Hs)|(offs & names & _ & Hparse)])].
  - intros s n. rewrite Hs. intros Hn. apply Hgrow. by eapply Hinv.
  - intros s n. rewrite Hs. intros Hn. apply Hgrow. by eapply Hinv.
  - assert (Htbl : forall off n, tbl !! off = Some n -> is_Some (members self' !! n)).
    { rewrite Hm. eapply catalog_table_in_members; [|exact Hcat].
      intros off n'. by rewrite lookup_empty. }
    assert (Hold : forall s n, symbol_member_map self !! s = Some n ->
                               is_Some (members self' !! n)).
    { intros s' n' Hn. apply Hgrow. by eapply Hinv. }
    exact (parse_index_values (fun n => is_Some (members self' !! n)) _ _ _ _ _ _ _
             Htbl Hold Hparse).
Qed.

Lemma reachable_consistent self : reachable self -> consistent self.
Proof.
  induction 1 as [|self _ _|fuel self data r self' _ IH Hload].
  - apply new_reader_consistent.
  - apply new_reader_consistent.
  - by eapply load_consistent.
Qed.

(** With the fuel that [load] gives it, the index loop returns: [load]
    returns whenever the catalog loop does. *)
Lemma load_returns fuel self data ds1 index_member fm0 x :
  _read_member (members self) None {| data := data; cursor := 8 |}
    = (Ok (index_member, fm0), ds1) ->
  catalog fuel ds1 true ∅ None (members self) = Some x ->
  load fuel self data <> None.
Proof.
  intros Hindex Hcat. unfold load.
  destruct (read_bytes (Some 8) None _) as [[magic|e] ds0] eqn:Hmagic; [|done].
  apply read_bytes_ok in Hmagic as (-> & _ & _).
  destruct (negb (bool_decide (magic = MAGIC))); [done|].
  change (set_cursor (cursor {| data := data; cursor := 0 |} + 8)
            {| data := data; cursor := 0 |})
    with {| data := data; cursor := 8 |}.
  rewrite Hindex. destruct (negb (bool_decide (name index_member = SLASH))); [done|].
  rewrite Hcat. destruct x as [[tbl|e] m1]; [|done]. simpl.
  destruct (open_index (content index_member)) as [[offs names]|e] eqn:Hopen; [|done].
  pose proof (parse_index_enough (stream_length offs) offs names tbl
                (symbol_member_map self)) as Hev.
  destruct (parse_index _ offs names tbl _) as [[r smap]|]; [done|].
  exfalso. apply Hev; [|done].
  rewrite (open_index_fresh _ _ _ Hopen). unfold stream_length, py_len. lia.
Qed.

Lemma load_fuel_mono fuel self data x :
  load fuel self data = Some x -> load (S fuel) self data = Some x.
Proof.
  unfold load.
  destruct (read_bytes (Some 8) None _) as [[magic|e] ds0]; [|done].
  destruct (negb (bool_decide (magic = MAGIC))); [done|].
  destruct (_read_member (members self) None ds0) as [[[index_member fm0]|e] ds1];
    [|done].
  destruct (negb (bool_decide (name index_member = SLASH))); [done|].
  destruct (catalog fuel ds1 true ∅ None (members self)) as [y|] eqn:Hcat;
    [|discriminate].
  by rewrite (catalog_fuel_mono _ _ _ _ _ _ _ Hcat).
Qed.

Lemma load_fuel_le fuel fuel' self input x :
  (fuel <= fuel')%nat ->
  load fuel self input = Some x -> load fuel' self input = Some x.
Proof.
  induction 1 as [|fuel' _ IH]; intros H; [done|].
  by apply load_fuel_mono, IH.
Qed.

(** [load] need not return: on [looping_archive] the catalog loop reads the
    member at offset 68 again and again. *)
Lemma load_loops fuel : load fuel new_reader looping_archive = None.
Proof.
  assert (Hmore : more_to_read {| data := looping_archive; cursor := 68 |} = true)
    by (vm_compute; reflexivity).
  assert (Hrm : forall m, _read_member m None {| data := looping_archive; cursor := 68 |}
                          = (Ok (looping_member, None),
                             {| data := looping_archive; cursor := 68 |})).
  { intros m. rewrite (read_member_resolve m ∅); [by vm_compute|].
    intros raw ds1 Hraw. vm_compute in Hraw. injection Hraw as <- _.
    intros Hsp. vm_compute in Hsp. discriminate. }
  assert (Hloop : forall fuel0,
             catalog fuel0 {| data := looping_archive; cursor := 68 |} true ∅ None ∅
             = None).
  { intros [|[|fuel0]]; [by apply catalog_out_of_fuel| |].
    - rewrite (catalog_skip_second_index _ _ _ _ _ _ _ _ Hmore (Hrm _) eq_refl).
      by apply catalog_out_of_fuel.
    - rewrite (catalog_skip_second_index _ _ _ _ _ _ _ _ Hmore (Hrm _) eq_refl).
      rewrite (catalog_file_member _ _ _ _ _ _ _ _ Hmore (Hrm _)) by done.
      by apply (catalog_fixed_point _ _ _ _ looping_member). }
  unfold load.
  replace (read_bytes (Some 8) None {| data := looping_archive; cursor := 0 |})
    with (Ok MAGIC, {| data := looping_archive; cursor := 8 |})
    by (vm_compute; reflexivity).
  rewrite bool_decide_eq_true_2 by done. simpl negb. cbv iota.
  replace (_read_member (members new_reader) None
             {| data := looping_archive; cursor := 8 |})
    with (Ok (set_content {| data := []; cursor := 0 |}
                (plain_member "/" 0 ""), @None Member),
          {| data := looping_archive; cursor := 68 |})
    by (vm_compute; reflexivity).
  cbv beta iota. rewrite bool_decide_eq_true_2 by done. simpl negb. cbv iota.
  change (members new_reader) with (∅ : gmap (list N) Member).
  by rewrite Hloop.
Qed.

(** ** The symbol map names members *)

(** The archive [two_members] loads. *)
Lemma two_members_load :
  load 3 new_reader two_members = Some (Ok tt, two_members_loaded).
Proof. vm_compute. reflexivity. Qed.

(** [C6]. On a reader that the methods of the class have produced, after a
    [load] that returns without raising every value of [symbol_member_map]
    is a key of [members]. *)
Theorem C6_symbols_name_members fuel self data self' :
  reachable self ->
  load fuel self data = Some (Ok tt, self') ->
  forall s n, symbol_member_map self' !! s = Some n -> is_Some (members self' !! n).
Proof.
  intros Hreach Hload.
  exact (load_consistent _ _ _ _ _ (reachable_consistent _ Hreach) Hload).
Qed.

(** [C6] at [two_members], for the symbol [sym1]. *)
Lemma C6_symbols_name_members_witness :
  is_Some (members two_members_loaded !! text "a.obj").
Proof.
  apply (C6_symbols_name_members 3 new_reader two_members two_members_loaded
           reachable_new two_members_load (text "sym1")).
  vm_compute. reflexivity.
Defined.

(** ** An offset of the index that is not in the offset table *)

(** [C7]. On [stray_offset] the caller of [load] gets [KeyError 99], the
    error of the dict subscript [member_name_by_offset[member_offset]], and
    the symbol is not filed; on [stray_offset_two], whose offset table holds
    other offsets, the caller gets the same [KeyError 99]. In the loop that
    decodes the index, a round that has read the offset and the symbol name
    and does not find the offset in the offset table raises [KeyError] with
    that offset, whatever the table holds, and leaves [symbol_member_map] as
    it was, while in the same round a symbol that is in [symbol_member_map]
    already raises the [ArchiveReadException] of the class. A [load] that
    returns without raising has found every offset of the index in the
    offset table, so no symbol is skipped. *)
Theorem C7_absent_offset :
  load 2 new_reader stray_offset
  = Some (Raise (KeyError 99),
          {| members := <[text "a.obj" := plain_member "a.obj" 2 "AA"]> ∅;
             symbol_member_map := ∅ |})
  /\ load 3 new_reader stray_offset_two
     = Some (Raise (KeyError 99),
             {| members := <[text "a.obj" := plain_member "a.obj" 2 "AA"]>
                             (<[text "b.obj" := plain_member "b.obj" 2 "BB"]> ∅);
                symbol_member_map := ∅ |})
  /\ (forall fuel offs names tbl smap off offs' sym names',
        more_to_read offs = true ->
        read_big_endian_dword None offs = (Ok off, offs') ->
        read_cstring None names = (Ok sym, names') ->
        (tbl !! off = None ->
         parse_index (S fuel) offs names tbl smap = Some (Raise (KeyError off), smap))
        /\ (is_Some (tbl !! off) -> is_Some (smap !! sym) ->
            parse_index (S fuel) offs names tbl smap
            = Some (Raise (ArchiveReadException DuplicateSymbol), smap)))
  /\ (forall fuel self input self',
        load fuel self input = Some (Ok tt, self') ->
        exists index_member fm0 ds1 tbl offs names,
          _read_member (members self) None {| data := input; cursor := 8 |}
            = (Ok (index_member, fm0), ds1)
          /\ catalog fuel ds1 true ∅ None (members self) = Some (Ok tbl, members self')
          /\ open_index (content index_member) = Ok (offs, names)
          /\ Forall (fun off => is_Some (tbl !! off)) (dwords (data offs))).
Proof.
  split; [|split; [|split]].
  - vm_compute. reflexivity.
  - vm_compute. reflexivity.
  - intros fuel offs names tbl smap off offs' sym names' Hmore Hoff Hsym. split.
    + intros Htbl. simpl. by rewrite Hmore, Hoff, Hsym, Htbl.
    + intros [n Htbl] [n' Hsmap]. simpl. by rewrite Hmore, Hoff, Hsym, Htbl, Hsmap.
  - intros fuel self input self' Hload.
    apply load_stages in Hload
      as [[_ [=]]|(index_member & fm0 & ds1 & x & m1 & Hindex & Hcat & Hm & Hrest)].
    destruct Hrest
      as [(_ & [=] & _)|(tbl & -> & [(e & _ & [=] & _)|(offs & names & Hopen & Hparse)])].
    exists index_member, fm0, ds1, tbl, offs, names.
    rewrite Hm. repeat split; try done.
    pose proof (open_index_fresh _ _ _ Hopen) as Hc.
    apply parse_index_ok_offsets in Hparse; [|lia].
    by rewrite Hc in Hparse.
Qed.

(** ** Loading twice *)

Lemma reset_new (self : ArchiveReader) : reset self = new_reader.
Proof. reflexivity. Qed.

(** The loop never files a member under ["//"]. *)
Lemma catalog_no_lookup_member fuel :
  forall ds first tbl fm m r m',
    catalog fuel ds first tbl fm m = Some (r, m') ->
    m !! SLASH_SLASH = None -> m' !! SLASH_SLASH = None.
Proof.
  induction fuel as [|fuel IH]; intros ds first tbl fm m r m' H Hm.
  - simpl in H. destruct (more_to_read ds); simpl in H; [discriminate|].
    by injection H as _ <-.
  - catalog_round H Hrm; try (injection H as _ <-; done);
      try (by eapply IH; [exact H|]).
    eapply IH; [exact H|]. rewrite lookup_insert_ne; [done|].
    match goal with
    | Hne : bool_decide _ = false |- _ => by apply bool_decide_eq_false in Hne
    end.
Qed.

Lemma is_special_cases (filename : list N) :
  is_special filename = true -> filename = SLASH \/ filename = SLASH_SLASH.
Proof.
  unfold is_special. intros H. apply orb_true_iff in H as [H|H];
    apply bool_decide_eq_true in H; auto.
Qed.

(** The catalog loop run again over the same stream, against a dictionary
    [mB] that already holds all that the first run ended with: the second
    run raises on a duplicate filename, unless the first run filed nothing
    but members named ["/"]. The offset tables play no part. *)
Lemma catalog_second_run fuel :
  forall ds first tblA tblB fm mA mB tbl mA',
    catalog fuel ds first tblA fm mA = Some (Ok tbl, mA') ->
    (forall k, is_Some (mA' !! k) -> is_Some (mB !! k)) ->
    mB !! SLASH_SLASH = None ->
    (exists nm mB',
       catalog fuel ds first tblB fm mB
       = Some (Raise (ArchiveReadException (DuplicateFilename nm)), mB'))
    \/ (forall k, is_Some (mA' !! k) -> k = SLASH \/ is_Some (mA !! k)).
Proof.
  induction fuel as [|fuel IH];
    intros ds first tblA tblB fm mA mB tbl mA' H Hsub HB; simpl in H |- *.
  - destruct (more_to_read ds); simpl in *; [discriminate|].
    injection H as _ <-. right. auto.
  - destruct (more_to_read ds); simpl in *.
    2:{ injection H as _ <-. right. auto. }
    destruct (_read_member mA fm ds) as [[[member fm2]|e] ds2] eqn:HrmA;
      [|discriminate].
    destruct (read_member_members mA mB _ _ _ _ _ HrmA) as [[HrmB Hname]|[ds1 HrmB]].
    2:{ left. rewrite HrmB. eauto. }
    rewrite HrmB. unfold print_stderr in *.
    assert (Hclassify :
      (if bool_decide (name member = SLASH_SLASH)
       then match fm2 with
            | Some _ => Some (Raise (NameError "sys"), mA)
            | None => catalog fuel ds2 false tblA (Some member) mA
            end
       else catalog fuel ds2 false (<[cursor ds:=name member]> tblA) fm2
              (<[name member:=member]> mA)) = Some (Ok tbl, mA') ->
      (exists nm mB',
         (if bool_decide (name member = SLASH_SLASH)
          then match fm2 with
               | Some _ => Some (Raise (NameError "sys"), mB)
               | None => catalog fuel ds2 false tblB (Some member) mB
               end
          else catalog fuel ds2 false (<[cursor ds:=name member]> tblB) fm2
                 (<[name member:=member]> mB))
         = Some (Raise (ArchiveReadException (DuplicateFilename nm)), mB'))
      \/ (forall k, is_Some (mA' !! k) -> k = SLASH \/ is_Some (mA !! k))).
    { intros Hrun.
      destruct (bool_decide (name member = SLASH_SLASH)) eqn:Hss.
      - destruct fm2; [discriminate|]. by eapply IH.
      - apply bool_decide_eq_false in Hss.
        destruct (IH _ _ _ (<[cursor ds:=name member]> tblB) _ _
                    (<[name member:=member]> mB) _ _ Hrun) as [Hl|Hr].
        + intros k Hk. rewrite lookup_insert.
          destruct (decide (name member = k)); [by eexists|auto].
        + by rewrite lookup_insert_ne.
        + by left.
        + right. intros k Hk. destruct (Hr k Hk) as [->|Hin]; [by left|].
          rewrite lookup_insert in Hin.
          destruct (decide (name member = k)) as [<-|]; [|by right].
          destruct Hname as [Hsp|HnB].
          * apply is_special_cases in Hsp as [Hsp|Hsp]; [by left|done].
          * exfalso. apply Hsub in Hk. rewrite HnB in Hk. by destruct Hk. }
    destruct first; [|by apply Hclassify].
    destruct (bool_decide (name member = SLASH)); [|discriminate].
    by eapply IH.
Qed.

(** [C3], the claim as stated fails: [load] on a new reader returns on
    [two_members], and [load] called again on that reader with the same
    buffer raises, because [a.obj] is in [members] already. *)
Lemma C3_second_load_raises :
  load 3 new_reader two_members = Some (Ok tt, two_members_loaded)
  /\ load 3 two_members_loaded two_members
     = Some (Raise (ArchiveReadException (DuplicateFilename (text "a.obj"))),
             two_members_loaded).
Proof. split; vm_compute; reflexivity. Qed.

(** [C3], amended. [load] does not clear the reader: [reset] does, and
    [__init__] calls it. A [load] of the same buffer after [reset] ends as
    the first parse on the new reader did, with the same two dictionaries.
    With no [reset] in between, the second [load] of a buffer whose first
    [load] returned and filed a member under a name other than ["/"] raises
    on a duplicate filename. *)
Theorem C3_load_again fuel input r self1 :
  load fuel new_reader input = Some (r, self1) ->
  load fuel (reset self1) input = Some (r, self1)
  /\ (r = Ok tt ->
      (exists k, k <> SLASH /\ is_Some (members self1 !! k)) ->
      exists nm self2,
        load fuel self1 input
        = Some (Raise (ArchiveReadException (DuplicateFilename nm)), self2)).
Proof.
  intros Hload. split; [by rewrite reset_new|].
  intros -> (k & Hk & Hin).
  pose proof Hload as Hstages.
  apply load_stages in Hstages
    as [[_ [=]]|(index_member & fm0 & ds1 & x & m1 & Hindex & Hcat & Hm & Hrest)].
  destruct Hrest as [(_ & [=] & _)|(tbl & -> & _)].
  unfold load in Hload |- *.
  destruct (read_bytes (Some 8) None _) as [[magic|e] ds0] eqn:Hmagic; [|discriminate].
  apply read_bytes_ok in Hmagic as (-> & _ & _).
  destruct (negb (bool_decide (magic = MAGIC))); [discriminate|].
  change (set_cursor (cursor {| data := input; cursor := 0 |} + 8)
            {| data := input; cursor := 0 |})
    with {| data := input; cursor := 8 |} in *.
  rewrite Hindex in Hload.
  destruct (read_member_members _ (members self1) _ _ _ _ _ Hindex)
    as [[HrmB _]|[ds' HrmB]]; rewrite HrmB; [|eauto].
  destruct (negb (bool_decide (name index_member = SLASH))); [discriminate|].
  destruct (catalog_second_run _ _ _ _ ∅ _ _ (members self1) _ _ Hcat)
    as [(nm & mB' & HB)|Hnone].
  - intros k'. by rewrite Hm.
  - rewrite Hm. eapply catalog_no_lookup_member; [exact Hcat|].
    apply lookup_empty.
  - rewrite HB. eauto.
  - exfalso. rewrite <- Hm in Hnone. destruct (Hnone k Hin) as [->|Hempty]; [done|].
    simpl in Hempty. rewrite lookup_empty in Hempty. by destruct Hempty.
Qed.

(** [C3] at [two_members]. *)
Lemma C3_load_again_witness :
  load 3 (reset two_members_loaded) two_members = Some (Ok tt, two_members_loaded)
  /\ exists nm self2,
       load 3 two_members_loaded two_members
       = Some (Raise (ArchiveReadException (DuplicateFilename nm)), self2).
Proof.
  destruct (C3_load_again 3 two_members (Ok tt) two_members_loaded two_members_load)
    as [Hreset Hagain].
  split; [exact Hreset|].
  apply Hagain; [reflexivity|].
  exists (text "a.obj"). split; [discriminate|]. vm_compute. by eexists.
Defined.

(** ** Names kept in the filename lookup member *)

Lemma is_digit_range (c : N) : is_digit c = true -> (48 <= c <= 57)%N.
Proof.
  unfold is_digit. intros H. apply andb_true_iff in H as [H1 H2].
  apply N.leb_le in H1, H2. lia.
Qed.

Lemma digit_of_digit (c : N) :
  is_digit c = true -> digit_of c = Some (Z.of_N (c - 48)).
Proof. unfold is_digit, digit_of. by intros ->. Qed.

Lemma more_digits_all (t : list N) :
  forallb is_digit t = true ->
  forall acc,
    more_digits acc t
    = (fold_left (fun acc c => 10 * acc + Z.of_N (c - 48)) t acc, []).
Proof.
  induction t as [|c t IH]; intros Ht acc; simpl in *; [done|].
  apply andb_true_iff in Ht as [Hc Ht].
  rewrite (digit_of_digit c Hc). by apply IH.
Qed.

Lemma map_to_ascii_digits (t : list N) :
  forallb is_digit t = true -> map to_ascii t = t.
Proof.
  induction t as [|c t IH]; simpl; [done|].
  intros Ht. apply andb_true_iff in Ht as [Hc Ht]. rewrite (IH Ht).
  f_equal. apply is_digit_range in Hc. unfold to_ascii.
  destruct (N.ltb_spec c 127); [done|]. lia.
Qed.

Lemma decimal_value_nonneg (digits : list N) : 0 <= decimal_value digits.
Proof.
  unfold decimal_value.
  assert (H : forall acc, 0 <= acc ->
                0 <= fold_left (fun acc c => 10 * acc + Z.of_N (c - 48)) digits acc).
  { induction digits as [|c t IH]; intros acc Hacc; simpl; [done|].
    apply IH. lia. }
  by apply H.
Qed.

(** [int] on a string of ASCII digits. *)
Lemma py_int_digits (digits : list N) :
  digits <> [] -> forallb is_digit digits = true ->
  py_int digits = Ok (decimal_value digits).
Proof.
  intros Hne Hd. unfold py_int. rewrite (map_to_ascii_digits _ Hd).
  destruct digits as [|c t]; [done|]. simpl in Hd.
  apply andb_true_iff in Hd as [Hc Ht].
  pose proof (is_digit_range c Hc) as Hrange.
  simpl. unfold is_space.
  destruct (N.leb_spec 9 c); [|lia]. destruct (N.leb_spec c 13); [lia|].
  destruct (N.eqb_spec c 32); [lia|]. simpl.
  destruct (N.eqb_spec c 43); [lia|]. destruct (N.eqb_spec c 45); [lia|].
  rewrite (digit_of_digit c Hc), (more_digits_all t Ht). simpl.
  unfold decimal_value. simpl. f_equal. by destruct (fold_left _ t _).
Qed.

Lemma last_digit (l : list N) :
  l <> [] -> forallb is_digit l = true ->
  exists d, last l = Some d /\ is_digit d = true.
Proof.
  induction l as [|c [|c' t] IH]; intros Hne Hd; [done| |].
  - simpl in Hd. apply andb_true_iff in Hd as [Hc _]. by exists c.
  - simpl in Hd. apply andb_true_iff in Hd as [_ Hd]. by apply IH.
Qed.

(** [resolve_filename] on [/] and digits. *)
Lemma resolve_filename_long m fm (digits : list N) :
  digits <> [] -> forallb is_digit digits = true ->
  is_special (47%N :: digits) = false
  /\ resolve_filename m fm (47%N :: digits) =
     match fm with
     | None => Raise (ArchiveReadException (NoFilenameMember (47%N :: digits)))
     | Some lookup =>
       match read_cstring (Some (decimal_value digits)) (content lookup) with
       | (Ok resolved, c) =>
         match m !! resolved with
         | Some _ => Raise (ArchiveReadException (DuplicateFilename resolved))
         | None => Ok (resolved, Some (set_content c lookup))
         end
       | (Raise e, _) => Raise e
       end
     end.
Proof.
  intros Hne Hd.
  destruct (last_digit digits Hne Hd) as (d & Hlast & Hdig).
  assert (Hd47 : (d =? 47)%N = false).
  { apply is_digit_range in Hdig. destruct (N.eqb_spec d 47); [lia|done]. }
  split.
  - unfold is_special, SLASH, SLASH_SLASH. simpl.
    rewrite !bool_decide_eq_false_2; [done| |].
    + intros [= ->]. simpl in Hlast. injection Hlast as <-. discriminate.
    + by intros [= ->].
  - unfold resolve_filename.
    assert (Hends : endswith_slash (47%N :: digits) = false).
    { unfold endswith_slash. destruct digits as [|c t]; [done|].
      change (last (47%N :: c :: t)) with (last (c :: t)). by rewrite Hlast. }
    rewrite Hends. simpl startswith_slash. cbv iota.
    rewrite py_slice_to_end by lia. simpl drop. rewrite drop_0.
    rewrite (py_int_digits digits Hne Hd).
    destruct fm as [lookup|]; [|done].
    by destruct (read_cstring _ (content lookup)) as [[resolved|e] c].
Qed.

(** [C5]. For a header whose name field, trailing spaces removed, is [/]
    and ASCII digits: with no filename lookup member recorded,
    [_read_member] raises [ArchiveReadException], and so does the catalog
    loop of [load]; with one recorded, the member that [_read_member]
    returns is named by what [read_cstring] reads in the content of that
    lookup member at the offset the digits write, which is the text of the
    bytes from that offset up to the first zero byte, and an error of that
    [read_cstring] is the error of [_read_member]. On [long_names_archive],
    whose ["//"] member holds [foo.obj\0bar.obj\0], the members with fields
    [/0] and [/8] are filed as [foo.obj] and [bar.obj]; on
    [no_lookup_archive] [load] raises. *)
Theorem C5_long_filename :
  (forall self_members ds ds1 raw digits,
     read_ascii (Some 16) None ds = (Ok raw, ds1) ->
     rstrip raw = 47%N :: digits ->
     digits <> [] ->
     forallb is_digit digits = true ->
     _read_member self_members None ds
       = (Raise (ArchiveReadException (NoFilenameMember (rstrip raw))), ds1)
     /\ (forall fuel first tbl,
           more_to_read ds = true ->
           catalog (S fuel) ds first tbl None self_members
           = Some (Raise (ArchiveReadException (NoFilenameMember (rstrip raw))),
                   self_members))
     /\ (forall lookup member fm' ds',
           _read_member self_members (Some lookup) ds = (Ok (member, fm'), ds') ->
           (exists c,
              read_cstring (Some (decimal_value digits)) (content lookup)
                = (Ok (name member), c)
              /\ fm' = Some (set_content c lookup))
           /\ (exists s rest,
                 drop (Z.to_nat (decimal_value digits)) (data (content lookup))
                   = s ++ x00 :: rest
                 /\ (x00 ∉ s)
                 /\ decode_utf8 s = Some (name member)))
     /\ (forall lookup e c,
           read_cstring (Some (decimal_value digits)) (content lookup) = (Raise e, c) ->
           _read_member self_members (Some lookup) ds = (Raise e, ds1)))
  /\ load 4 new_reader long_names_archive
     = Some (Ok tt,
             {| members := <[text "foo.obj" := plain_member "foo.obj" 2 "AA"]>
                             (<[text "bar.obj" := plain_member "bar.obj" 2 "BB"]> ∅);
                symbol_member_map := ∅ |})
  /\ load 4 new_reader no_lookup_archive
     = Some (Raise (ArchiveReadException (NoFilenameMember (text "/0"))), new_reader).
Proof.
  split; [|split; vm_compute; reflexivity].
  intros m ds ds1 raw digits Hraw Hstrip Hne Hd.
  assert (Hnone : _read_member m None ds
                  = (Raise (ArchiveReadException (NoFilenameMember (rstrip raw))), ds1)).
  { destruct (resolve_filename_long m None digits Hne Hd) as [Hsp Hres].
    apply (read_member_raise _ _ _ raw); rewrite ?Hstrip; done. }
  split; [exact Hnone|]. split; [|split].
  - intros fuel first tbl Hmore. simpl. by rewrite Hmore, Hnone.
  - intros lookup member fm' ds' Hrm.
    destruct (resolve_filename_long m (Some lookup) digits Hne Hd) as [Hsp Hres].
    apply read_member_inv in Hrm as (raw' & ds1' & Hraw' & Hname).
    rewrite Hraw in Hraw'. injection Hraw' as <- <-.
    rewrite Hstrip, Hsp, Hres in Hname.
    destruct (read_cstring _ (content lookup)) as [[resolved|e] c] eqn:Hread;
      [|discriminate].
    destruct (m !! resolved); [discriminate|].
    injection Hname as <- <-. split; [by exists c|].
    rewrite read_cstring_after_seek in Hread.
    apply read_cstring_ok_inv in Hread as (s & rest & Hdrop & Hs & Hdec & _);
      [|apply decimal_value_nonneg].
    by exists s, rest.
  - intros lookup e c Hread.
    destruct (resolve_filename_long m (Some lookup) digits Hne Hd) as [Hsp Hres].
    apply (read_member_raise _ _ _ raw); rewrite ?Hstrip; [done..|].
    by rewrite Hres, Hread.
Qed.

(** [C5] at the header [/8] with [lookup_member]. *)
Lemma C5_long_filename_witness :
  _read_member ∅ None long_header
    = (Raise (ArchiveReadException (NoFilenameMember (text "/8"))),
       set_cursor 16 long_header)
  /\ exists c,
       read_cstring (Some 8) (content lookup_member) = (Ok (text "bar.obj"), c).
Proof.
  destruct (proj1 C5_long_filename ∅ long_header (set_cursor 16 long_header)
              (text "/8              ") [56%N]
              ltac:(vm_compute; reflexivity) ltac:(vm_compute; reflexivity)
              ltac:(discriminate) ltac:(vm_compute; reflexivity))
    as (Hnone & _ & Hsome & _).
  split; [exact Hnone|].
  destruct (Hsome lookup_member (plain_member "bar.obj" 2 "BB")
              (Some (set_content {| data := long_names; cursor := 16 |} lookup_member))
              (set_cursor 62 long_header)
              ltac:(vm_compute; reflexivity)) as ((c & Hc & _) & _).
  by exists c.
Defined.

(** ** A member of odd size *)

(** [C1], the code at the failing input. [_read_member] tests the parity of
    the cursor after the header and reads the pad byte there, before the
    content, where the format has it after the content. On
    [odd_member_archive] the loop therefore reads the next header from the
    pad byte at 193 on: the two bytes it takes for the terminator are a
    space and [0x60], and the warning it then prints raises [NameError],
    with [a.obj] the only member filed. On [odd_last_archive] the loop finds
    one byte left, the pad byte, and raises on the short read of a name
    field. A header that starts at the odd offset 1 shows the order: header
    at 1, pad byte at 61, content at 62. *)
Theorem C1_odd_size_member :
  load 4 new_reader odd_member_archive
  = Some (Raise (NameError "sys"),
          {| members := <[text "a.obj" := plain_member "a.obj" 1 "A"]> ∅;
             symbol_member_map := ∅ |})
  /\ load 4 new_reader odd_last_archive
     = Some (Raise (BufferStreamIndexError (InsufficientData 16)),
             {| members := <[text "a.obj" := plain_member "a.obj" 1 "A"]> ∅;
                symbol_member_map := ∅ |})
  /\ _read_member ∅ None {| data := odd_offset_header; cursor := 1 |}
     = (Ok (plain_member "b.obj" 2 "BB", None),
        {| data := odd_offset_header; cursor := 64 |}).
Proof. repeat split; vm_compute; reflexivity. Qed.

(** ** The four warnings *)

(** [C2], the code at the failing inputs. Each of the four warnings is a
    [print(..., file = sys.stderr)] in a module that does not import [sys]:
    on an archive with any one of the four anomalies [load] raises
    [NameError] at the warning and files nothing more. *)
Theorem C2_warnings_raise :
  load 4 new_reader bad_terminator_archive
  = Some (Raise (NameError "sys"), new_reader)
  /\ load 4 new_reader bad_padding_archive
     = Some (Raise (NameError "sys"), new_reader)
  /\ load 4 new_reader no_second_index_archive
     = Some (Raise (NameError "sys"), new_reader)
  /\ load 4 new_reader two_lookup_members_archive
     = Some (Raise (NameError "sys"), new_reader).
Proof. repeat split; vm_compute; reflexivity. Qed.

(** * Further properties of the byte cursor *)

(** ** Reads of a fixed width *)

Lemma py_slice_elem_of {A} (l : list A) (lo hi : Z) (x : A) :
  x ∈ py_slice l lo hi -> x ∈ l.
Proof.
  unfold py_slice. intros H.
  apply subseteq_take in H. by apply subseteq_drop in H.
Qed.

Lemma py_slice_length_from {A} (l : list A) (c n : Z) :
  0 <= c -> 0 <= n ->
  py_len (py_slice l c (c + n)) = Z.max 0 (Z.min (c + n) (py_len l) - Z.min c (py_len l)).
Proof.
  intros Hc Hn. unfold py_slice, clamp_index.
  destruct (Z.ltb_spec c 0); [lia|]. destruct (Z.ltb_spec (c + n) 0); [lia|].
  unfold py_len. rewrite length_take, length_drop. lia.
Qed.

Lemma py_slice_negative_length {A} (l : list A) (c n : Z) :
  n < 0 -> py_len (py_slice l c (c + n)) <> n.
Proof. intros Hn. unfold py_len. lia. Qed.

Lemma read_bytes_after_seek (length position : option Z) (self : BufferStream) :
  read_bytes length position self = read_bytes length None (snd (seek position self)).
Proof. unfold read_bytes, bind, seek. by destruct position. Qed.

Lemma read_bytes_unfold (n : Z) (self : BufferStream) :
  read_bytes (Some n) None self =
  if negb (py_len (py_slice (data self) (cursor self) (cursor self + n)) =? n)
  then (Raise (BufferStreamIndexError (InsufficientData n)), self)
  else (Ok (py_slice (data self) (cursor self) (cursor self + n)),
        set_cursor (cursor self + n) self).
Proof. reflexivity. Qed.

Lemma read_bytes_returns (n : Z) (self : BufferStream) :
  0 <= cursor self -> 0 <= n -> cursor self + n <= py_len (data self) ->
  read_bytes (Some n) None self
  = (Ok (take (Z.to_nat n) (drop (Z.to_nat (cursor self)) (data self))),
     set_cursor (cursor self + n) self).
Proof.
  intros Hc Hn Hlen. rewrite read_bytes_unfold.
  rewrite py_slice_within by lia.
  replace (Z.to_nat (cursor self + n - cursor self)) with (Z.to_nat n) by lia.
  destruct (Z.eqb_spec
              (py_len (take (Z.to_nat n) (drop (Z.to_nat (cursor self)) (data self))))
              n) as [|Hne]; [done|].
  exfalso. apply Hne. unfold py_len in *. rewrite length_take, length_drop. lia.
Qed.

Lemma read_bytes_short (n : Z) (self : BufferStream) :
  0 <= cursor self -> 0 < n -> py_len (data self) < cursor self + n ->
  read_bytes (Some n) None self
  = (Raise (BufferStreamIndexError (InsufficientData n)), self).
Proof.
  intros Hc Hn Hlen. rewrite read_bytes_unfold.
  destruct (Z.eqb_spec (py_len (py_slice (data self) (cursor self)
                                  (cursor self + n))) n) as [Heq|]; [|done].
  exfalso. rewrite py_slice_length_from in Heq by lia. lia.
Qed.

Lemma read_bytes_zero (self : BufferStream) :
  read_bytes (Some 0) None self = (Ok [], set_cursor (cursor self) self).
Proof.
  rewrite read_bytes_unfold. rewrite Z.add_0_r.
  assert (Hnil : py_slice (data self) (cursor self) (cursor self) = []).
  { unfold py_slice. by rewrite Z.sub_diag. }
  by rewrite Hnil.
Qed.

Lemma read_bytes_negative (n : Z) (self : BufferStream) :
  n < 0 ->
  read_bytes (Some n) None self
  = (Raise (BufferStreamIndexError (InsufficientData n)), self).
Proof.
  intros Hn. rewrite read_bytes_unfold.
  destruct (Z.eqb_spec (py_len (py_slice (data self) (cursor self)
                                  (cursor self + n))) n) as [Heq|]; [|done].
  exfalso. by apply py_slice_negative_length in Heq.
Qed.

(** A [read_bytes(n)] that returned, from a cursor that is not negative,
    had its [n] bytes. *)
Lemma read_bytes_ok_room (n : Z) (self self' : BufferStream) (bs : list byte) :
  0 <= cursor self -> 0 < n ->
  read_bytes (Some n) None self = (Ok bs, self') ->
  cursor self + n <= py_len (data self).
Proof.
  intros Hc Hn Hread.
  destruct (Z.le_gt_cases (cursor self + n) (py_len (data self))) as [|Hgt]; [done|].
  rewrite read_bytes_short in Hread by lia. discriminate.
Qed.

(** [X1]. [read_bytes(n)], after its optional [seek], from a cursor that
    is not negative: with [n] bytes or more left it returns exactly the next
    [n] bytes and moves the cursor [n] on; with fewer than [n] bytes left
    and [n] positive it raises [BufferStreamIndexError] and leaves the
    cursor where [seek] put it. [read_bytes(0)] returns no bytes and does
    not raise, wherever the cursor is; a negative [n] raises from every
    cursor. *)
Theorem X1_read_bytes_exact (self : BufferStream) (position : option Z) (n : Z) :
  let start := snd (seek position self) in
  (0 <= cursor start -> 0 <= n -> cursor start + n <= py_len (data start) ->
   read_bytes (Some n) position self
   = (Ok (take (Z.to_nat n) (drop (Z.to_nat (cursor start)) (data start))),
      set_cursor (cursor start + n) start))
  /\ (0 <= cursor start -> 0 < n -> py_len (data start) < cursor start + n ->
      read_bytes (Some n) position self
      = (Raise (BufferStreamIndexError (InsufficientData n)), start))
  /\ (n = 0 ->
      read_bytes (Some n) position self = (Ok [], set_cursor (cursor start) start))
  /\ (n < 0 ->
      read_bytes (Some n) position self
      = (Raise (BufferStreamIndexError (InsufficientData n)), start)).
Proof.
  intros start. rewrite read_bytes_after_seek. fold start.
  split; [|split; [|split]].
  - apply read_bytes_returns.
  - apply read_bytes_short.
  - intros ->. apply read_bytes_zero.
  - apply read_bytes_negative.
Qed.

(** [X1] at [abcdef]: three bytes from offset 2, five bytes from offset 2,
    no byte from offset 9, and a negative length. *)
Lemma X1_read_bytes_exact_witness :
  read_bytes (Some 3) (Some 2) {| data := bytes_of "abcdef"; cursor := 0 |}
  = (Ok (bytes_of "cde"), {| data := bytes_of "abcdef"; cursor := 5 |})
  /\ read_bytes (Some 5) (Some 2) {| data := bytes_of "abcdef"; cursor := 0 |}
     = (Raise (BufferStreamIndexError (InsufficientData 5)),
        {| data := bytes_of "abcdef"; cursor := 2 |})
  /\ read_bytes (Some 0) (Some 9) {| data := bytes_of "abcdef"; cursor := 0 |}
     = (Ok [], {| data := bytes_of "abcdef"; cursor := 9 |})
  /\ read_bytes (Some (-1)) None {| data := bytes_of "abcdef"; cursor := 0 |}
     = (Raise (BufferStreamIndexError (InsufficientData (-1))),
        {| data := bytes_of "abcdef"; cursor := 0 |}).
Proof.
  destruct (X1_read_bytes_exact {| data := bytes_of "abcdef"; cursor := 0 |} (Some 2) 3)
    as (H3 & _ & _ & _).
  destruct (X1_read_bytes_exact {| data := bytes_of "abcdef"; cursor := 0 |} (Some 2) 5)
    as (_ & H5 & _ & _).
  destruct (X1_read_bytes_exact {| data := bytes_of "abcdef"; cursor := 0 |} (Some 9) 0)
    as (_ & _ & H0 & _).
  destruct (X1_read_bytes_exact {| data := bytes_of "abcdef"; cursor := 0 |} None (-1))
    as (_ & _ & _ & Hneg).
  split; [|split; [|split]].
  - apply H3; vm_compute; discriminate.
  - apply H5; vm_compute; try discriminate; reflexivity.
  - by apply H0.
  - apply Hneg. lia.
Defined.

(** [X2]. Two reads in a row read what one read of the joint width reads:
    when [read_bytes(n + m)] returns [bs], [read_bytes(n)] returns the first
    [n] bytes of [bs] and a [read_bytes(m)] after it the rest, and the cursor
    ends where the one read left it. *)
Theorem X2_read_bytes_split (self self' : BufferStream) (n m : Z) (bs : list byte) :
  0 <= cursor self -> 0 <= n -> 0 <= m ->
  read_bytes (Some (n + m)) None self = (Ok bs, self') ->
  read_bytes (Some n) None self
    = (Ok (take (Z.to_nat n) bs), set_cursor (cursor self + n) self)
  /\ read_bytes (Some m) None (set_cursor (cursor self + n) self)
     = (Ok (drop (Z.to_nat n) bs), self').
Proof.
  intros Hc Hn Hm Hread.
  destruct (Z.eq_dec (n + m) 0) as [Hz|Hnz].
  - assert (n = 0) as -> by lia. assert (m = 0) as -> by lia.
    rewrite read_bytes_zero in Hread. injection Hread as <- <-.
    rewrite !read_bytes_zero. simpl. rewrite Z.add_0_r. done.
  - assert (Hpos : 0 < n + m) by lia.
    pose proof (read_bytes_ok_room _ _ _ _ Hc Hpos Hread) as Hroom.
    rewrite read_bytes_returns in Hread by lia. injection Hread as <- <-.
    rewrite !read_bytes_returns by (simpl; lia). simpl. split.
    + do 2 f_equal. rewrite take_take. f_equal. lia.
    + f_equal.
      * f_equal.
        replace (Z.to_nat (cursor self + n))
          with (Z.to_nat (cursor self) + Z.to_nat n)%nat by lia.
        rewrite <- drop_drop, take_drop_commute. do 2 f_equal. lia.
      * unfold set_cursor. simpl. f_equal. lia.
Qed.

(** [X2] at [abcdef]: two bytes and three bytes from offset 1. *)
Lemma X2_read_bytes_split_witness :
  read_bytes (Some 2) None {| data := bytes_of "abcdef"; cursor := 1 |}
    = (Ok (bytes_of "bc"), {| data := bytes_of "abcdef"; cursor := 3 |})
  /\ read_bytes (Some 3) None {| data := bytes_of "abcdef"; cursor := 3 |}
     = (Ok (bytes_of "def"), {| data := bytes_of "abcdef"; cursor := 6 |}).
Proof.
  apply (X2_read_bytes_split {| data := bytes_of "abcdef"; cursor := 1 |}
           {| data := bytes_of "abcdef"; cursor := 6 |} 2 3 (bytes_of "bcdef"));
    [vm_compute; discriminate..|reflexivity].
Defined.

(** ** Views *)

(** [X3]. [read_sub_stream(n)] and [read_bytes(n)] agree wherever
    [read_bytes(n)] returns: the view holds the bytes that [read_bytes(n)]
    returns, with its own cursor at 0, and the stream is left with the same
    cursor. From a cursor that is not negative and with [n] not negative,
    the view holds the next [n] bytes or, when fewer are left, all that are
    left, and the cursor of the stream moves [n] on in both cases. *)
Theorem X3_read_sub_stream_view (self : BufferStream) (position : option Z) (n : Z) :
  (forall bs self',
     read_bytes (Some n) position self = (Ok bs, self') ->
     read_sub_stream (Some n) position self = (Ok {| data := bs; cursor := 0 |}, self'))
  /\ (let start := snd (seek position self) in
      0 <= cursor start -> 0 <= n ->
      read_sub_stream (Some n) position self
      = (Ok {| data := take (Z.to_nat n) (drop (Z.to_nat (cursor start)) (data start));
               cursor := 0 |},
         set_cursor (cursor start + n) start)).
Proof.
  split.
  - intros bs self' Hread. rewrite read_bytes_after_seek in Hread.
    apply read_bytes_ok in Hread as (-> & -> & _).
    unfold read_sub_stream, bind, seek. by destruct position.
  - intros start Hc Hn.
    assert (Hrun : read_sub_stream (Some n) position self =
                   (Ok {| data := py_slice (data start) (cursor start) (cursor start + n);
                          cursor := 0 |},
                    set_cursor (cursor start + n) start)).
    { unfold read_sub_stream, bind, seek, start. by destruct position. }
    rewrite Hrun. clearbody start. do 3 f_equal.
    unfold py_slice, clamp_index.
    destruct (Z.ltb_spec (cursor start) 0); [lia|].
    destruct (Z.ltb_spec (cursor start + n) 0); [lia|].
    destruct (Z.le_gt_cases (cursor start) (py_len (data start))) as [Hin|Hout].
    + rewrite (Z.min_l (cursor start)) by lia.
      destruct (Z.le_gt_cases (cursor start + n) (py_len (data start))).
      * rewrite Z.min_l by lia. do 2 f_equal. lia.
      * rewrite Z.min_r by lia.
        rewrite !take_ge; [done|rewrite length_drop..]; unfold py_len in *; lia.
    + rewrite !Z.min_r by lia. rewrite Z.sub_diag. simpl.
      rewrite !drop_ge by (unfold py_len in *; lia). by rewrite !take_nil.
Qed.

(** [X3] at [abcdef] from offset 4: a view of two bytes, asked for two and
    for five. *)
Lemma X3_read_sub_stream_view_witness :
  read_sub_stream (Some 2) (Some 4) {| data := bytes_of "abcdef"; cursor := 0 |}
    = (Ok {| data := bytes_of "ef"; cursor := 0 |},
       {| data := bytes_of "abcdef"; cursor := 6 |})
  /\ read_sub_stream (Some 5) (Some 4) {| data := bytes_of "abcdef"; cursor := 0 |}
     = (Ok {| data := bytes_of "ef"; cursor := 0 |},
        {| data := bytes_of "abcdef"; cursor := 9 |}).
Proof.
  split.
  - apply (proj1 (X3_read_sub_stream_view {| data := bytes_of "abcdef"; cursor := 0 |}
                    (Some 4) 2)). reflexivity.
  - apply (proj2 (X3_read_sub_stream_view {| data := bytes_of "abcdef"; cursor := 0 |}
                    (Some 4) 5)); vm_compute; discriminate.
Defined.

(** * Further properties of [util.py] *)

(** ** Big-endian and little-endian integers *)

Lemma byte_value_range (c : byte) : 0 <= byte_value c < 256.
Proof. unfold byte_value. pose proof (Byte.to_N_bounded c). lia. Qed.

Lemma byte_value_inj (c1 c2 : byte) : byte_value c1 = byte_value c2 -> c1 = c2.
Proof.
  unfold byte_value. intros H. apply N2Z.inj in H.
  pose proof (Byte.of_to_N c1) as H1. rewrite H, Byte.of_to_N in H1.
  by injection H1.
Qed.

(** Shifting by eight and setting the low byte is multiplying by 256 and
    adding. *)
Lemma shift_lor_byte (r v : Z) :
  0 <= v < 256 -> Z.lor (Z.shiftl r 8) v = 256 * r + v.
Proof.
  intros Hv.
  assert (Hland : Z.land (Z.shiftl r 8) v = 0).
  { apply Z.bits_inj'. intros n Hn. rewrite Z.land_spec, Z.bits_0.
    destruct (Z.lt_ge_cases n 8) as [Hlow|Hhigh].
    - by rewrite Z.shiftl_spec_low.
    - destruct (Z.eq_dec v 0) as [->|Hv0].
      + by rewrite Z.bits_0, andb_false_r.
      + rewrite (Z.bits_above_log2 v n), andb_false_r; [done|lia|].
        apply Z.lt_le_trans with 8; [|done].
        apply Z.log2_lt_pow2; lia. }
  rewrite <- Z.lxor_lor, <- Z.add_nocarry_lxor by done.
  rewrite Z.shiftl_mul_pow2 by lia. lia.
Qed.

Lemma parse_big_endian_acc (bs : list byte) (acc : Z) :
  fold_left (fun result byte => Z.lor (Z.shiftl result 8) (byte_value byte)) bs acc
  = acc * 256 ^ Z.of_nat (length bs)
    + fold_left (fun result byte => Z.lor (Z.shiftl result 8) (byte_value byte)) bs 0.
Proof.
  revert acc. induction bs as [|c bs IH]; intros acc; simpl fold_left.
  - simpl. lia.
  - rewrite (IH (Z.lor (Z.shiftl acc 8) (byte_value c))).
    rewrite (IH (Z.lor (Z.shiftl 0 8) (byte_value c))).
    rewrite !shift_lor_byte by apply byte_value_range.
    replace (Z.of_nat (length (c :: bs))) with (Z.of_nat (length bs) + 1)
      by (simpl; lia).
    rewrite Z.pow_add_r by lia. lia.
Qed.

Lemma parse_big_endian_cons (c : byte) (bs : list byte) :
  parse_big_endian (c :: bs)
  = byte_value c * 256 ^ Z.of_nat (length bs) + parse_big_endian bs.
Proof.
  unfold parse_big_endian. simpl fold_left.
  change (fun result byte => Z.lor (Z.shiftl result 8) (Z.of_N (Byte.to_N byte)))
    with (fun result byte => Z.lor (Z.shiftl result 8) (byte_value byte)).
  rewrite parse_big_endian_acc.
  by rewrite (shift_lor_byte 0) by apply byte_value_range.
Qed.

Lemma parse_big_endian_snoc (bs : list byte) (c : byte) :
  parse_big_endian (bs ++ [c]) = 256 * parse_big_endian bs + byte_value c.
Proof.
  unfold parse_big_endian. rewrite fold_left_app. simpl.
  apply shift_lor_byte, byte_value_range.
Qed.

Lemma parse_big_endian_range (bs : list byte) :
  0 <= parse_big_endian bs < 256 ^ Z.of_nat (length bs).
Proof.
  induction bs as [|c bs IH]; [by vm_compute|].
  rewrite parse_big_endian_cons.
  pose proof (byte_value_range c) as Hc.
  replace (Z.of_nat (length (c :: bs))) with (Z.of_nat (length bs) + 1)
    by (simpl; lia).
  rewrite Z.pow_add_r by lia.
  assert (0 < 256 ^ Z.of_nat (length bs)) by (apply Z.pow_pos_nonneg; lia).
  nia.
Qed.

(** [X4]. [parse_big_endian] reads its bytes as the digits of a number in
    base 256, the first byte the most significant: the value of [c] followed
    by [bs] is [c * 256^len(bs)] plus the value of [bs], the value of no
    bytes is 0, and the value of [k] bytes lies from 0 up to [256^k]
    excluded. *)
Theorem X4_parse_big_endian_value (c : byte) (bs : list byte) :
  parse_big_endian [] = 0
  /\ parse_big_endian (c :: bs)
     = byte_value c * 256 ^ Z.of_nat (length bs) + parse_big_endian bs
  /\ 0 <= parse_big_endian bs < 256 ^ Z.of_nat (length bs).
Proof.
  split; [done|]. split; [apply parse_big_endian_cons|apply parse_big_endian_range].
Qed.

(** [X5]. [parse_big_endian] loses nothing on byte strings of one length:
    two strings of the same length with the same value are the same
    string. *)
Theorem X5_parse_big_endian_injective (bs1 bs2 : list byte) :
  length bs1 = length bs2 ->
  parse_big_endian bs1 = parse_big_endian bs2 ->
  bs1 = bs2.
Proof.
  revert bs2. induction bs1 as [|c1 bs1 IH]; intros [|c2 bs2] Hlen Hval;
    try discriminate; [done|].
  injection Hlen as Hlen.
  rewrite !parse_big_endian_cons, Hlen in Hval.
  pose proof (parse_big_endian_range bs1) as H1. rewrite Hlen in H1.
  pose proof (parse_big_endian_range bs2) as H2.
  pose proof (byte_value_range c1) as Hc1.
  pose proof (byte_value_range c2) as Hc2.
  assert (Hc : byte_value c1 = byte_value c2) by nia.
  rewrite Hc in Hval.
  f_equal; [by apply byte_value_inj|]. apply IH; [done|lia].
Qed.

(** [X5] at the strings [00 01] and [00 01]; [01] alone has the same value
    and another length. *)
Lemma X5_parse_big_endian_injective_witness :
  [x00; x01] = [x00; x01] /\ parse_big_endian [x01] = parse_big_endian [x00; x01].
Proof.
  split; [|reflexivity].
  apply (X5_parse_big_endian_injective [x00; x01] [x00; x01]); reflexivity.
Defined.

(** [X6]. [parse_little_endian] reads its bytes with the first byte the
    least significant: the value of [c] followed by [bs] is [c] plus 256
    times the value of [bs]; and it gives on the reversed string what
    [parse_big_endian] gives on the string. *)
Theorem X6_parse_little_endian_value (c : byte) (bs : list byte) :
  parse_little_endian [] = 0
  /\ parse_little_endian (c :: bs) = byte_value c + 256 * parse_little_endian bs
  /\ parse_little_endian (rev bs) = parse_big_endian bs.
Proof.
  unfold parse_little_endian. split; [done|]. split.
  - simpl rev. rewrite parse_big_endian_snoc. lia.
  - by rewrite rev_involutive.
Qed.

(** * Further properties of the byte cursor: typed reads *)

(** [X7]. A [read_big_endian_dword] that returns, from a cursor that is not
    negative, has read the four bytes at the cursor, returns
    [b0 * 2^24 + b1 * 2^16 + b2 * 2^8 + b3], a number from 0 up to [2^32]
    excluded, and has moved the cursor four bytes on. *)
Theorem X7_read_big_endian_dword (self self' : BufferStream) (v : Z) :
  0 <= cursor self ->
  read_big_endian_dword None self = (Ok v, self') ->
  exists b0 b1 b2 b3,
    take 4 (drop (Z.to_nat (cursor self)) (data self)) = [b0; b1; b2; b3]
    /\ v = 16777216 * byte_value b0 + 65536 * byte_value b1
           + 256 * byte_value b2 + byte_value b3
    /\ 0 <= v < 4294967296
    /\ self' = set_cursor (cursor self + 4) self.
Proof.
  intros Hc Hread. unfold read_big_endian_dword in Hread.
  apply bind_ok in Hread as (bs & s1 & Hbs & Hret).
  unfold ret in Hret. injection Hret as <- <-.
  pose proof (read_bytes_ok_room 4 _ _ _ Hc eq_refl Hbs) as Hroom.
  rewrite read_bytes_returns in Hbs by lia. injection Hbs as <- <-.
  change (Z.to_nat 4) with 4%nat.
  assert (Hlen : length (take 4 (drop (Z.to_nat (cursor self)) (data self))) = 4%nat).
  { rewrite length_take, length_drop. unfold py_len in *. lia. }
  destruct (take 4 (drop (Z.to_nat (cursor self)) (data self)))
    as [|b0 [|b1 [|b2 [|b3 [|b4 rest]]]]]; try discriminate.
  exists b0, b1, b2, b3. split; [done|].
  pose proof (parse_big_endian_range [b0; b1; b2; b3]) as Hrange.
  rewrite !parse_big_endian_cons in *. simpl length in *.
  change (parse_big_endian []) with 0 in *.
  change (256 ^ Z.of_nat 4) with 4294967296 in *.
  change (256 ^ Z.of_nat 3) with 16777216 in *.
  change (256 ^ Z.of_nat 2) with 65536 in *.
  change (256 ^ Z.of_nat 1) with 256 in *.
  change (256 ^ Z.of_nat 0) with 1 in *.
  repeat split; lia.
Qed.

(** [X7] at the offsets of [two_members]: the dword at offset 4 of the index
    content is 150. *)
Lemma X7_read_big_endian_dword_witness :
  exists b0 b1 b2 b3,
    take 4 (drop 4 (dword 2 ++ dword 150)) = [b0; b1; b2; b3]
    /\ 150 = 16777216 * byte_value b0 + 65536 * byte_value b1
             + 256 * byte_value b2 + byte_value b3.
Proof.
  destruct (X7_read_big_endian_dword {| data := dword 2 ++ dword 150; cursor := 4 |}
              {| data := dword 2 ++ dword 150; cursor := 8 |} 150
              ltac:(simpl; lia) eq_refl)
    as (b0 & b1 & b2 & b3 & Htake & Hv & _).
  by exists b0, b1, b2, b3.
Defined.

Lemma decode_utf8_ascii (bs : list byte) :
  Forall (fun c => (Byte.to_N c < 128)%N) bs ->
  decode_utf8 bs = Some (map Byte.to_N bs).
Proof.
  induction 1 as [|c bs Hc _ IH]; [done|].
  simpl. destruct (N.ltb_spec (Byte.to_N c) 128); [|lia].
  by rewrite IH.
Qed.

(** [X8]. [read_ascii(n)] reads what [read_bytes(n)] reads: when those
    bytes are all below 128 it returns them as text, one character for each
    byte, and leaves the cursor where [read_bytes(n)] does; when they are
    not valid UTF-8 it raises [UnicodeDecodeError], the cursor having moved
    past them all the same. *)
Theorem X8_read_ascii_of_bytes (self self' : BufferStream) (position : option Z)
    (n : Z) (bs : list byte) :
  read_bytes (Some n) position self = (Ok bs, self') ->
  (Forall (fun c => (Byte.to_N c < 128)%N) bs ->
   read_ascii (Some n) position self = (Ok (map Byte.to_N bs), self'))
  /\ (decode_utf8 bs = None ->
      read_ascii (Some n) position self = (Raise UnicodeDecodeError, self')).
Proof.
  intros Hread. unfold read_ascii, bind. rewrite Hread. unfold lift, decode.
  split.
  - intros Hascii. by rewrite decode_utf8_ascii.
  - by intros ->.
Qed.

(** [X8] at a name field and at a byte that no UTF-8 text holds. *)
Lemma X8_read_ascii_of_bytes_witness :
  read_ascii (Some 3) None {| data := bytes_of "a.obj"; cursor := 0 |}
    = (Ok (text "a.o"), {| data := bytes_of "a.obj"; cursor := 3 |})
  /\ read_ascii (Some 1) None {| data := [xff; x00]; cursor := 0 |}
     = (Raise UnicodeDecodeError, {| data := [xff; x00]; cursor := 1 |}).
Proof.
  split.
  - apply (proj1 (X8_read_ascii_of_bytes {| data := bytes_of "a.obj"; cursor := 0 |}
                    {| data := bytes_of "a.obj"; cursor := 3 |} None 3 (bytes_of "a.o")
                    eq_refl)).
    repeat constructor.
  - apply (proj2 (X8_read_ascii_of_bytes {| data := [xff; x00]; cursor := 0 |}
                    {| data := [xff; x00]; cursor := 1 |} None 1 [xff] eq_refl)).
    reflexivity.
Defined.

(** ** Decimal fields *)






Section DecimalField.
Variable digits : list N.
Variable k : nat.
Hypothesis digits_nonempty : digits <> [].
Hypothesis all_digits : forallb is_digit digits = true.


End DecimalField.







(** * Further properties of the archive reader *)

(** ** How far [_read_member] reads *)

Lemma read_ascii_ok (n : Z) (self self' : BufferStream) (s : list N) :
  read_ascii (Some n) None self = (Ok s, self') ->
  self' = set_cursor (cursor self + n) self
  /\ decode_utf8 (py_slice (data self) (cursor self) (cursor self + n)) = Some s.
Proof.
  unfold read_ascii. intros H. apply bind_ok in H as (bs & s1 & Hbs & H).
  apply read_bytes_ok in Hbs as (-> & -> & _).
  unfold lift, decode in H.
  destruct (decode_utf8 _) as [t|]; [|discriminate]. by injection H as <- <-.
Qed.

Lemma read_ascii_integer_ok (n : Z) (self self' : BufferStream) (v : Z) :
  read_ascii_integer (Some n) None self = (Ok v, self') ->
  self' = set_cursor (cursor self + n) self
  /\ exists s,
       decode_utf8 (py_slice (data self) (cursor self) (cursor self + n)) = Some s
       /\ py_int s = Ok v.
Proof.
  unfold read_ascii_integer. intros H. apply bind_ok in H as (s & s1 & Hs & H).
  apply read_ascii_ok in Hs as (-> & Hs).
  unfold lift in H. injection H as H <-. eauto.
Qed.

(** A [_read_member] that returns has read a header of 60 bytes, one pad
    byte if the header ends at an odd offset, and has taken the content
    from there; the size is what [int] makes of the ten bytes at offset 48
    of the header. *)
Lemma read_member_shape m fm ds member fm' ds' :
  _read_member m fm ds = (Ok (member, fm'), ds') ->
  let start := cursor ds + 60 + (cursor ds + 60) mod 2 in
  ds' = set_cursor (start + size member) ds
  /\ content member
     = {| data := py_slice (data ds) start (start + size member); cursor := 0 |}
  /\ exists s,
       decode_utf8 (py_slice (data ds) (cursor ds + 48) (cursor ds + 58)) = Some s
       /\ py_int s = Ok (size member).
Proof.
  intros H. unfold _read_member in H.
  apply bind_ok in H as (raw & s1 & H1 & H). cbv beta iota zeta in H.
  apply read_ascii_ok in H1 as [-> _].
  apply bind_ok in H as ([fn fm2] & s2 & H2 & H). cbv beta iota zeta in H.
  unfold lift in H2. injection H2 as _ <-.
  apply bind_ok in H as (date & s3 & H3 & H). cbv beta iota zeta in H.
  apply read_ascii_integer_ok in H3 as [-> _].
  apply bind_ok in H as (uid & s4 & H4 & H). cbv beta iota zeta in H.
  apply read_ascii_ok in H4 as [-> _].
  apply bind_ok in H as (gid & s5 & H5 & H). cbv beta iota zeta in H.
  apply read_ascii_ok in H5 as [-> _].
  apply bind_ok in H as (mode & s6 & H6 & H). cbv beta iota zeta in H.
  apply read_ascii_integer_ok in H6 as [-> _].
  apply bind_ok in H as (sz & s7 & H7 & H). cbv beta iota zeta in H.
  apply read_ascii_integer_ok in H7 as [-> (s & Hs & Hint)].
  apply bind_ok in H as (endHeader & s8 & H8 & H). cbv beta iota zeta in H.
  apply read_bytes_ok in H8 as (-> & _ & _).
  apply bind_ok in H as (u1 & s9 & H9 & H). cbv beta iota zeta in H.
  assert (s9 = set_cursor (cursor ds + 60) ds) as ->.
  { destruct (_ || _); [discriminate|].
    unfold ret in H9. injection H9 as _ <-.
    unfold set_cursor. simpl. f_equal. lia. }
  apply bind_ok in H as (u2 & s10 & H10 & H). cbv beta iota zeta in H.
  assert (s10 = set_cursor (cursor ds + 60 + (cursor ds + 60) mod 2) ds) as ->.
  { simpl cursor in H10.
    destruct (Z.eqb_spec ((cursor ds + 60) mod 2) 0) as [Heven|Hodd]; simpl negb in H10;
      cbv iota in H10.
    - unfold ret in H10. injection H10 as _ <-. rewrite Heven.
      unfold set_cursor. simpl. f_equal. lia.
    - apply bind_ok in H10 as (padding & s11 & H11 & H10).
      apply read_bytes_ok in H11 as (-> & _ & _).
      destruct (negb _); [discriminate|].
      unfold ret in H10. injection H10 as _ <-.
      pose proof (Z.mod_pos_bound (cursor ds + 60) 2 ltac:(lia)) as Hmod.
      unfold set_cursor. simpl. f_equal. lia. }
  apply bind_ok in H as (c & s11 & H11 & H). cbv beta iota zeta in H.
  unfold read_sub_stream, bind, seek in H11. simpl in H11. injection H11 as <- <-.
  unfold ret in H. injection H as <- _ <-. simpl.
  split; [done|]. split; [done|].
  exists s. split; [|done]. simpl in Hs.
  by replace (cursor ds + 48) with (cursor ds + 16 + 12 + 6 + 6 + 8) by lia;
     replace (cursor ds + 58) with (cursor ds + 16 + 12 + 6 + 6 + 8 + 10) by lia.
Qed.

Lemma py_slice_take_drop {A} (l : list A) (c n : Z) :
  0 <= c -> 0 <= n ->
  py_slice l c (c + n) = take (Z.to_nat n) (drop (Z.to_nat c) l).
Proof.
  intros Hc Hn. unfold py_slice, clamp_index.
  destruct (Z.ltb_spec c 0); [lia|]. destruct (Z.ltb_spec (c + n) 0); [lia|].
  destruct (Z.le_gt_cases c (py_len l)) as [Hin|Hout].
  - rewrite (Z.min_l c) by lia.
    destruct (Z.le_gt_cases (c + n) (py_len l)).
    + rewrite Z.min_l by lia. do 2 f_equal. lia.
    + rewrite Z.min_r by lia.
      rewrite !take_ge; [done|rewrite length_drop..]; unfold py_len in *; lia.
  - rewrite !Z.min_r by lia. rewrite Z.sub_diag. simpl.
    rewrite !drop_ge by (unfold py_len in *; lia). by rewrite !take_nil.
Qed.

(** [X10]. A [_read_member] that returns a member of size 0 or more, from a
    cursor that is not negative, has read the 60 bytes of the header and,
    when the header ends at an odd offset, one pad byte; the content of the
    member is a stream of its own, at cursor 0, over the [size] bytes that
    follow or, when the buffer ends before, over those that are left; the
    cursor of the stream read from is [size] past the start of the content
    in both cases. *)
Theorem X10_read_member_extent m fm ds member fm' ds' :
  _read_member m fm ds = (Ok (member, fm'), ds') ->
  0 <= cursor ds -> 0 <= size member ->
  let start := cursor ds + 60 + (cursor ds + 60) mod 2 in
  data ds' = data ds
  /\ cursor ds' = start + size member
  /\ cursor (content member) = 0
  /\ data (content member)
     = take (Z.to_nat (size member)) (drop (Z.to_nat start) (data ds)).
Proof.
  intros H Hc Hsize start.
  destruct (read_member_shape _ _ _ _ _ _ H) as (-> & Hcontent & _).
  fold start in Hcontent. rewrite Hcontent. simpl.
  repeat split. apply py_slice_take_drop; [|done].
  pose proof (Z.mod_pos_bound (cursor ds + 60) 2 ltac:(lia)). unfold start. lia.
Qed.

(** [X10] at [odd_offset_header], read from offset 1: the content starts at
    62, after the pad byte at 61. *)
Lemma X10_read_member_extent_witness :
  take 2 (drop 62 odd_offset_header) = bytes_of "BB".
Proof.
  assert (Hrm : _read_member (∅ : gmap (list N) Member) None
                  {| data := odd_offset_header; cursor := 1 |}
                = (Ok (plain_member "b.obj" 2 "BB", None),
                   {| data := odd_offset_header; cursor := 64 |}))
    by (vm_compute; reflexivity).
  pose proof (X10_read_member_extent _ _ _ _ _ _ Hrm) as H.
  cbv [cursor size plain_member] in H. cbv zeta in H.
  specialize (H ltac:(lia) ltac:(lia)).
  destruct H as (_ & _ & _ & Hdata).
  symmetry. exact Hdata.
Defined.

(** ** The formats of the name field *)

Lemma py_slice_drop_last {A} (l : list A) (x : A) : py_slice (l ++ [x]) 0 (-1) = l.
Proof.
  unfold py_slice, clamp_index, py_len. rewrite length_app. simpl.
  rewrite Z.min_l by lia. rewrite Z.max_l by lia. simpl.
  replace (Z.to_nat (-1 + Z.of_nat (length l + 1) - 0)) with (length l) by lia.
  apply take_app_length.
Qed.

Lemma is_special_snoc (nm : list N) :
  nm <> [] -> nm <> [47%N] -> is_special (nm ++ [47%N]) = false.
Proof.
  intros Hne Hne'. unfold is_special, SLASH, SLASH_SLASH.
  rewrite !bool_decide_eq_false_2; [done| |].
  - change (text "//") with ([47%N] ++ [47%N]). intros Heq.
    by apply app_inj_tail in Heq as [-> _].
  - change (text "/") with ([] ++ [47%N]). intros Heq.
    by apply app_inj_tail in Heq as [-> _].
Qed.

Lemma resolve_filename_short m fm (nm : list N) :
  resolve_filename m fm (nm ++ [47%N]) =
  match m !! nm with
  | Some _ => Raise (ArchiveReadException (DuplicateFilename nm))
  | None => Ok (nm, fm)
  end.
Proof.
  unfold resolve_filename, endswith_slash.
  rewrite last_snoc. simpl. by rewrite py_slice_drop_last.
Qed.

(** [X11]. The name field of a header, trailing blanks removed, when it is
    not ["/"] or ["//"]: if it ends with [/], the name is the field without
    that [/], and [_read_member] raises [ArchiveReadException] when
    [members] holds the name already; if it neither ends nor starts with
    [/] (an empty field too), [_read_member] raises
    [ArchiveReadException]. *)
Theorem X11_name_field m fm ds ds1 (raw : list N) :
  read_ascii (Some 16) None ds = (Ok raw, ds1) ->
  (forall nm,
     rstrip raw = nm ++ [47%N] -> nm <> [] -> nm <> [47%N] ->
     (is_Some (m !! nm) ->
      _read_member m fm ds
      = (Raise (ArchiveReadException (DuplicateFilename nm)), ds1))
     /\ (forall member fm' ds',
           _read_member m fm ds = (Ok (member, fm'), ds') ->
           name member = nm /\ fm' = fm /\ m !! nm = None))
  /\ (is_special (rstrip raw) = false ->
      endswith_slash (rstrip raw) = false ->
      startswith_slash (rstrip raw) = false ->
      _read_member m fm ds
      = (Raise (ArchiveReadException (BadFilenameFormat (rstrip raw))), ds1)).
Proof.
  intros Hraw. split.
  - intros nm Hstrip Hne Hne'.
    pose proof (is_special_snoc nm Hne Hne') as Hsp.
    pose proof (resolve_filename_short m fm nm) as Hres.
    split.
    + intros [v Hv]. apply (read_member_raise _ _ _ raw); rewrite ?Hstrip; [done..|].
      by rewrite Hres, Hv.
    + intros member fm' ds' Hrm.
      apply read_member_inv in Hrm as (raw' & ds1' & Hraw' & Hname).
      rewrite Hraw in Hraw'. injection Hraw' as <- <-.
      rewrite Hstrip, Hsp, Hres in Hname.
      destruct (m !! nm); [discriminate|]. by injection Hname as <- <-.
  - intros Hsp Hends Hstarts.
    apply (read_member_raise _ _ _ raw); [done..|].
    unfold resolve_filename. by rewrite Hends, Hstarts.
Qed.

(** [X11] at the fields [a.obj/] and [a.obj]. *)
Lemma X11_name_field_witness :
  _read_member (<[text "a.obj" := plain_member "a.obj" 2 "AA"]> ∅) None
    {| data := header "a.obj/" "2"; cursor := 0 |}
  = (Raise (ArchiveReadException (DuplicateFilename (text "a.obj"))),
     {| data := header "a.obj/" "2"; cursor := 16 |})
  /\ _read_member ∅ None {| data := header "a.obj" "2"; cursor := 0 |}
     = (Raise (ArchiveReadException (BadFilenameFormat (text "a.obj"))),
        {| data := header "a.obj" "2"; cursor := 16 |}).
Proof.
  assert (Hshort_field :
            read_ascii (Some 16) None {| data := header "a.obj/" "2"; cursor := 0 |}
            = (Ok (text "a.obj/          "),
               {| data := header "a.obj/" "2"; cursor := 16 |}))
    by (vm_compute; reflexivity).
  assert (Hbad_field :
            read_ascii (Some 16) None {| data := header "a.obj" "2"; cursor := 0 |}
            = (Ok (text "a.obj           "),
               {| data := header "a.obj" "2"; cursor := 16 |}))
    by (vm_compute; reflexivity).
  split.
  - destruct (X11_name_field
                (<[text "a.obj" := plain_member "a.obj" 2 "AA"]> ∅) None _ _ _
                Hshort_field) as [Hshort _].
    apply (Hshort (text "a.obj")); [reflexivity|discriminate..|].
    vm_compute. by eexists.
  - destruct (X11_name_field (∅ : gmap (list N) Member) None _ _ _ Hbad_field)
      as [_ Hbad].
    apply Hbad; reflexivity.
Defined.

(** ** What [load] rejects before it reads a member *)

(** [X12]. [load] on a buffer shorter than eight bytes raises
    [BufferStreamIndexError]; on a buffer whose first eight bytes are not
    the magic number it raises [ArchiveReadException]; on the magic number
    with fewer than 16 bytes after it, it raises [BufferStreamIndexError]
    for the name field of the first header. The reader is left as it was in
    the three cases. *)
Theorem X12_load_rejects fuel self (input : list byte) :
  (py_len input < 8 ->
   load fuel self input = Some (Raise (BufferStreamIndexError (InsufficientData 8)), self))
  /\ (8 <= py_len input -> take 8 input <> MAGIC ->
      load fuel self input
      = Some (Raise (ArchiveReadException (BadMagic (take 8 input))), self))
  /\ (8 <= py_len input < 24 -> take 8 input = MAGIC ->
      load fuel self input
      = Some (Raise (BufferStreamIndexError (InsufficientData 16)), self)).
Proof.
  split; [|split].
  - intros Hshort. unfold load. by rewrite read_bytes_short.
  - intros Hlen Hmagic. unfold load. rewrite read_bytes_returns by (simpl; lia).
    simpl. by rewrite bool_decide_eq_false_2.
  - intros Hlen Hmagic. unfold load. rewrite read_bytes_returns by (simpl; lia).
    simpl. rewrite bool_decide_eq_true_2 by done. simpl.
    unfold _read_member, read_ascii, bind.
    by rewrite read_bytes_short by (simpl; lia).
Qed.

(** [X12] at the empty buffer, at eight bytes that are not the magic number
    and at the magic number alone. *)
Lemma X12_load_rejects_witness :
  load 0 new_reader [] = Some (Raise (BufferStreamIndexError (InsufficientData 8)), new_reader)
  /\ load 0 new_reader (bytes_of "!<arch>?")
     = Some (Raise (ArchiveReadException (BadMagic (bytes_of "!<arch>?"))), new_reader)
  /\ load 0 new_reader MAGIC
     = Some (Raise (BufferStreamIndexError (InsufficientData 16)), new_reader).
Proof.
  split; [|split].
  - apply (proj1 (X12_load_rejects 0 new_reader [])). reflexivity.
  - apply (proj1 (proj2 (X12_load_rejects 0 new_reader (bytes_of "!<arch>?"))));
      [vm_compute; discriminate|discriminate].
  - apply (proj2 (proj2 (X12_load_rejects 0 new_reader MAGIC)));
      [split; vm_compute; [discriminate|reflexivity]|reflexivity].
Defined.

(** * What [load] keeps of the reader it is called on *)

(** The name that [_read_member] returns is ["/"], ["//"] or a name that
    [members] does not hold. *)
Lemma read_member_fresh m fm ds member fm' ds' :
  _read_member m fm ds = (Ok (member, fm'), ds') ->
  name member = SLASH \/ name member = SLASH_SLASH \/ m !! name member = None.
Proof.
  intros H. apply read_member_inv in H as (raw & ds1 & _ & Hname).
  destruct (is_special (rstrip raw)) eqn:Hsp.
  - injection Hname as <- _. apply is_special_cases in Hsp. tauto.
  - right; right. unfold resolve_filename in Hname.
    destruct (if endswith_slash (rstrip raw) then _ else _) as [[nm fm1]|]; [|discriminate].
    destruct (m !! nm) eqn:Hnm; [discriminate|]. by injection Hname as <- _.
Qed.

(** The catalog loop replaces no member but one filed under ["/"]. *)
Lemma catalog_keeps fuel :
  forall ds first tbl fm m r m',
    catalog fuel ds first tbl fm m = Some (r, m') ->
    forall k v, k <> SLASH -> m !! k = Some v -> m' !! k = Some v.
Proof.
  induction fuel as [|fuel IH]; intros ds first tbl fm m r m' H k v Hk Hv.
  - simpl in H. destruct (more_to_read ds); simpl in H; [discriminate|].
    by injection H as _ <-.
  - catalog_round H Hrm; try (injection H as _ <-; done);
      try (by eapply IH; [exact H|..]).
    all: eapply IH; [exact H|done|]; rewrite lookup_insert_ne; [done|];
      intros <-; apply read_member_fresh in Hrm as [Hn|[Hn|Hn]]; [done| |congruence];
      match goal with
      | Hne : bool_decide (_ = SLASH_SLASH) = false |- _ =>
        by apply bool_decide_eq_false in Hne
      end.
Qed.

(** The catalog loop files every member under its own name. *)
Lemma catalog_keyed fuel :
  forall ds first tbl fm m r m',
    catalog fuel ds first tbl fm m = Some (r, m') ->
    keyed_by_name m -> keyed_by_name m'.
Proof.
  induction fuel as [|fuel IH]; intros ds first tbl fm m r m' H Hm.
  - simpl in H. destruct (more_to_read ds); simpl in H; [discriminate|].
    by injection H as _ <-.
  - catalog_round H Hrm; try (injection H as _ <-; done);
      try (by eapply IH; [exact H|]).
    all: eapply IH; [exact H|]; intros k v; rewrite lookup_insert;
      destruct (decide (_ = k)) as [<-|]; [by intros [= <-]|by apply Hm].
Qed.

(** The index loop replaces no entry of [symbol_member_map]. *)
Lemma parse_index_keeps fuel :
  forall offs names tbl smap r smap',
    parse_index fuel offs names tbl smap = Some (r, smap') ->
    forall s n, smap !! s = Some n -> smap' !! s = Some n.
Proof.
  induction fuel as [|fuel IH]; intros offs names tbl smap r smap' H s n Hs;
    simpl in H.
  - destruct (more_to_read offs); simpl in H; [discriminate|].
    by injection H as _ <-.
  - destruct (more_to_read offs); simpl in H; [|by injection H as _ <-].
    destruct (read_big_endian_dword None offs) as [[off|e] offs'];
      [|by injection H as _ <-].
    destruct (read_cstring None names) as [[sym|e] names'];
      [|by injection H as _ <-].
    destruct (tbl !! off) as [member_name|]; [|by injection H as _ <-].
    destruct (smap !! sym) eqn:Hsym; [by injection H as _ <-|].
    eapply IH; [exact H|]. rewrite lookup_insert_ne; [done|congruence].
Qed.

(** [X13]. [load] replaces nothing that the reader holds, however it ends:
    a symbol that [symbol_member_map] maps to a member before the call maps
    to the same member after it, and a member that [members] holds under a
    name other than ["/"] is held under that name, unchanged, after it. *)
Theorem X13_load_keeps_entries fuel self (input : list byte) r self' :
  load fuel self input = Some (r, self') ->
  (forall s n, symbol_member_map self !! s = Some n ->
               symbol_member_map self' !! s = Some n)
  /\ (forall k v, k <> SLASH -> members self !! k = Some v ->
                  members self' !! k = Some v).
Proof.
  intros H.
  apply load_stages in H
    as [[-> _]|(index_member & fm0 & ds1 & x & m1 & _ & Hcat & Hm & Hrest)];
    [done|].
  split.
  - destruct Hrest
      as [(_ & _ & Hs)|(tbl & -> & [(e & _ & _ & Hs)|(offs & names & _ & Hparse)])];
      [by rewrite Hs..|].
    intros s n. by eapply parse_index_keeps.
  - intros k v Hk Hv. rewrite Hm. by eapply catalog_keeps.
Qed.

(** A member filed under ["/"] is replaced: the third member of
    [slash_member_archive] has the name field [/]. *)
Lemma load_replaces_slash_member :
  exists self,
    load 2 new_reader (slash_member_archive "AA") = Some (Ok tt, self)
    /\ members self !! SLASH = Some (plain_member "/" 2 "AA")
    /\ exists self',
         load 2 self (slash_member_archive "BB") = Some (Ok tt, self')
         /\ members self' !! SLASH = Some (plain_member "/" 2 "BB").
Proof.
  eexists. split; [vm_compute; reflexivity|]. split; [vm_compute; reflexivity|].
  eexists. split; vm_compute; reflexivity.
Qed.

(** [X13] at [one_member_loaded], on which [two_members] is loaded: the
    member [c.obj] and the symbol [sym3] are there after the call. *)
Lemma X13_load_keeps_entries_witness :
  symbol_member_map
    {| members := <[text "c.obj" := plain_member "c.obj" 1 "C"]>
                    (members two_members_loaded);
       symbol_member_map := <[text "sym3" := text "c.obj"]>
                              (symbol_member_map two_members_loaded) |}
    !! text "sym3" = Some (text "c.obj").
Proof.
  assert (Hload : load 3 one_member_loaded two_members
                  = Some (Ok tt,
                          {| members := <[text "c.obj" := plain_member "c.obj" 1 "C"]>
                                          (members two_members_loaded);
                             symbol_member_map :=
                               <[text "sym3" := text "c.obj"]>
                                 (symbol_member_map two_members_loaded) |}))
    by (vm_compute; reflexivity).
  apply (proj1 (X13_load_keeps_entries _ _ _ _ _ Hload)).
  vm_compute. reflexivity.
Defined.

(** [X14]. In every reader that the methods of the class have produced,
    [members] holds each member under the name that the member itself
    carries, and holds nothing under ["//"]: the filename lookup member is
    never filed. *)
Theorem X14_members_by_name self :
  reachable self ->
  keyed_by_name (members self) /\ members self !! SLASH_SLASH = None.
Proof.
  induction 1 as [|self _ _|fuel self input r self' _ [IHk IHl] Hload].
  - split; [intros k v|]; by rewrite ?lookup_empty.
  - split; [intros k v|]; by rewrite ?lookup_empty.
  - apply load_stages in Hload
      as [[-> _]|(index_member & fm0 & ds1 & x & m1 & _ & Hcat & Hm & _)];
      [done|].
    rewrite Hm. split.
    + by eapply catalog_keyed.
    + by eapply catalog_no_lookup_member.
Qed.

(** [X14] at the reader that has loaded [two_members]. *)
Lemma X14_members_by_name_witness :
  keyed_by_name (members two_members_loaded)
  /\ members two_members_loaded !! SLASH_SLASH = None.
Proof.
  apply X14_members_by_name.
  exact (reachable_load 3 new_reader two_members (Ok tt) two_members_loaded
           reachable_new two_members_load).
Defined.
